(** * Secure vault frontend: upload coordinator and preview resolver

    Shallow embedding of [UploadButton] ([uploadFile], [startRealUpload])
    and of [PreviewModal] ([loadFilePreview] and its effect cleanup).
    Asynchronous code is modelled as the list of effects it performs, the
    answers of the browser (XHR events, fetch responses) being inputs. *)

From Stdlib Require Import String Ascii List ZArith Bool Lia Permutation Sorting.Sorted.
From Stdlib Require Import QArith Qround Qpower Lqa.
Close Scope Q_scope.
Import ListNotations.
Open Scope string_scope.

(** ** JavaScript helpers *)
Module Js.

(** Truthiness of a [string | null | undefined] value. *)
Definition truthy (s : option string) : bool :=
  match s with
  | Some v => negb (String.eqb v "")
  | None => false
  end.

(** [a || b] on strings. *)
Definition or_else (a : option string) (b : string) : string :=
  match a with
  | Some v => if String.eqb v "" then b else v
  | None => b
  end.

Definition is_ws (c : ascii) : bool :=
  match c with
  | " "%char | "009"%char | "010"%char | "011"%char | "012"%char | "013"%char => true
  | _ => false
  end.

Fixpoint trim_left (s : string) : string :=
  match s with
  | EmptyString => EmptyString
  | String c r => if is_ws c then trim_left r else s
  end.

Fixpoint rev_str (s : string) (acc : string) : string :=
  match s with
  | EmptyString => acc
  | String c r => rev_str r (String c acc)
  end.

(** [String.prototype.trim] (ASCII white space). *)
Definition trim (s : string) : string :=
  rev_str (trim_left (rev_str (trim_left s) "")) "".

Definition digit (n : nat) : ascii := ascii_of_nat (48 + n).

Fixpoint nat_digits (fuel n : nat) (acc : string) : string :=
  match fuel with
  | O => acc
  | S f =>
      let acc' := String (digit (Nat.modulo n 10)) acc in
      if Nat.ltb n 10 then acc' else nat_digits f (Nat.div n 10) acc'
  end.

(** Template-literal rendering of a (non-negative) integer. *)
Definition z_to_string (z : Z) : string :=
  let n := Z.to_nat z in
  if (z <? 0)%Z then "-" ++ nat_digits (S (Z.to_nat (- z))) (Z.to_nat (- z)) ""
  else nat_digits (S n) n "".

(** The double-quote character. *)
Definition quote : string := String (ascii_of_nat 34) EmptyString.

(** [s.startsWith(p)] *)
Definition starts_with (p s : string) : bool := String.prefix p s.

End Js.

(** ** IEEE 754 binary64 arithmetic, round to nearest even

    A finite double is [m * 2^s] with [2^52 <= |m| < 2^53]; the exponent
    range is not bounded, which is exact for the operands met here (byte
    counts below 2^53, whose quotients and products by 100 are normal
    doubles). *)
Module F64.
Local Open Scope Q_scope.

(** Rounding of a rational to the nearest integer, ties to even. *)
Definition rhe (x : Q) : Z :=
  let f := Qfloor x in
  match Qcompare (2 * (x - inject_Z f)) 1 with
  | Lt => f
  | Gt => (f + 1)%Z
  | Eq => if Z.even f then f else (f + 1)%Z
  end.

(** [floor(log2 x)] for [x > 0]. *)
Definition flog2 (x : Q) : Z :=
  let k := (Z.log2 (Qnum x) - Z.log2 (Zpos (Qden x)))%Z in
  if Qle_bool (2 ^ k) x then k else (k - 1)%Z.

(** The double nearest to [x > 0]: 53 significant bits. *)
Definition round_pos (x : Q) : Q :=
  let s := (flog2 x - 52)%Z in inject_Z (rhe (x / 2 ^ s)) * 2 ^ s.

(** The result of a floating-point operation whose exact value is [x]. *)
Definition round64 (x : Q) : Q :=
  if Qle_bool x 0 then (if Qle_bool 0 x then 0 else - round_pos (- x)) else round_pos x.

(** [Math.round]: the nearest integer, ties towards +infinity. *)
Definition js_round (x : Q) : Z := Qfloor (x + (1 # 2)).

End F64.

(** ** Upload coordinator ([UploadButton]) *)
Module Upload.

Inductive upload_status := uploading | completed | error.

Record UploadProgressItem := {
  id : string;
  name : string;
  progress : Z;
  size : Z;
  status : upload_status
}.

(** A browser [File]: only what [uploadFile] reads. *)
Record LocalFile := { file_name : string; file_size : Z }.

(** The updater functions passed to [setUploads]. *)
Inductive uploads_update :=
| AppendItem (it : UploadProgressItem)   (* prev => [...prev, uploadItem] *)
| SetError (uid : string)                (* { ...upload, status: 'error' } *)
| SetProgress (uid : string) (p : Z)     (* { ...upload, progress } *)
| SetCompleted (uid : string)            (* { ...upload, progress: 100, status: 'completed' } *)
| RemoveItem (uid : string).             (* prev.filter(upload => upload.id !== uploadId) *)

Definition with_status (u : UploadProgressItem) (s : upload_status) :=
  {| id := id u; name := name u; progress := progress u; size := size u; status := s |}.

Definition with_progress (u : UploadProgressItem) (p : Z) :=
  {| id := id u; name := name u; progress := p; size := size u; status := status u |}.

Definition apply_update (up : uploads_update) (prev : list UploadProgressItem)
  : list UploadProgressItem :=
  match up with
  | AppendItem it => prev ++ [it]
  | SetError uid =>
      map (fun u => if String.eqb (id u) uid then with_status u error else u) prev
  | SetProgress uid p =>
      map (fun u => if String.eqb (id u) uid then with_progress u p else u) prev
  | SetCompleted uid =>
      map (fun u => if String.eqb (id u) uid
                    then with_status (with_progress u 100) completed else u) prev
  | RemoveItem uid => filter (fun u => negb (String.eqb (id u) uid)) prev
  end.

(** Successive [setUploads] calls, oldest first. *)
Definition apply_updates (ups : list uploads_update) (s : list UploadProgressItem) :=
  fold_left (fun acc up => apply_update up acc) ups s.

(** The task id an updater is about. *)
Definition update_target (up : uploads_update) : string :=
  match up with
  | AppendItem it => id it
  | SetError uid | SetProgress uid _ | SetCompleted uid | RemoveItem uid => uid
  end.

(** The toast kinds used by [addToast]. *)
Inductive toast_kind := toast_success | toast_error.

(** A parsed JSON body, as far as the code reads it: [file?.id] of an upload
    answer and [error?.message] of an error answer. *)
Inductive json_body :=
| Json (file_id : option string) (error_message : option string)
| NotJson.

(** How the upload [XMLHttpRequest] ends: [onload], [onerror] or [ontimeout]. *)
Inductive xhr_terminal :=
| XhrLoad (st : Z) (statusText : string) (body : json_body)
| XhrError
| XhrTimeout.

(** What the transport does after [xhr.send]: [upload.onprogress] events
    [(lengthComputable, loaded, total)], then at most one terminal event. *)
Record xhr_run := {
  progress_events : list (bool * Z * Z);
  terminal : option xhr_terminal
}.

(** The answer to the [PATCH /files/{id}/move] request. *)
Inductive move_result :=
| MoveResponse (ok : bool) (statusText : string) (body : json_body)
| MoveRejected (message : string).

(** Observable effects of [uploadFile]. *)
Inductive effect :=
| SetUploads (up : uploads_update)
| AddToast (k : toast_kind) (msg : string)
| XhrPost (url : string) (authorization : string) (timeout_ms : Z) (tags : option string)
| FetchMove (url : string) (authorization : string) (folder_id : string)
| SetTimeoutUpdate (ms : Z) (up : uploads_update)
| OnUploadComplete.

(** The values [uploadFile] closes over. *)
Record upload_ctx := {
  token : option string;
  folderId : option string;
  tags : string;
  has_onUploadComplete : bool;
  env_rest_base : option string   (* import.meta.env.VITE_REST_BASE_URL *)
}.

Definition restBaseUrl (env : option string) : string :=
  Js.or_else env "http://localhost:8080/api/v1".

(** The XHR timeout set in [uploadFile]. *)
Definition xhr_timeout : Z := 60000.

(** [Math.round((event.loaded / event.total) * 100)] in double precision:
    the quotient is rounded to a double, its product by 100 too, then
    [Math.round] applies. *)
Definition percent (loaded total : Z) : Z :=
  F64.js_round (F64.round64 (F64.round64 (inject_Z loaded / inject_Z total) * 100)%Q).

Definition progress_updates (uid : string) (evs : list (bool * Z * Z)) : list effect :=
  flat_map (fun ev : bool * Z * Z =>
              let '(lc, loaded, total) := ev in
              if lc then [SetUploads (SetProgress uid (percent loaded total))] else [])
           evs.

(** Settlement of the upload promise: the parsed answer's [file?.id], or the
    message of the [Error] it is rejected with. *)
Definition xhr_outcome (t : xhr_terminal) : option string + string :=
  match t with
  | XhrLoad st stt body =>
      if (200 <=? st)%Z && (st <? 300)%Z then
        match body with
        | Json fid _ => inl fid
        | NotJson => inr "Invalid JSON response"
        end
      else
        let fallback := "Upload failed: " ++ Js.z_to_string st ++ " " ++ stt in
        match body with
        | Json _ msg => inr (Js.or_else msg fallback)
        | NotJson => inr fallback
        end
  | XhrError => inr "Network error during upload"
  | XhrTimeout => inr "Upload timeout"
  end.

(** The [catch (error)] block. *)
Definition catch_block (uid : string) (file : LocalFile) (msg : string) : list effect :=
  [SetUploads (SetError uid);
   AddToast toast_error ("Failed to upload " ++ Js.quote ++ file_name file ++ Js.quote ++ ": " ++ msg)].

(** The tail of the [try] block once the upload promise has resolved. *)
Definition after_upload (ctx : upload_ctx) (uid : string) (file : LocalFile)
    (fid : option string) (mv : move_result) : list effect :=
  let base := restBaseUrl (env_rest_base ctx) in
  let bearer := "Bearer " ++ Js.or_else (token ctx) "" in
  let success :=
    ([AddToast toast_success ("File " ++ Js.quote ++ file_name file ++ Js.quote ++ " uploaded successfully!");
     SetTimeoutUpdate 2000 (RemoveItem uid)] ++
    (if has_onUploadComplete ctx then [OnUploadComplete] else []))%list in
  let isRoot := negb (Js.truthy (folderId ctx)) in
  SetUploads (SetCompleted uid) ::
  (if negb isRoot && Js.truthy fid then
     let file_id := Js.or_else fid "" in
     FetchMove (base ++ "/files/" ++ file_id ++ "/move") bearer (Js.or_else (folderId ctx) "") ::
     match mv with
     | MoveResponse true _ _ => success
     | MoveResponse false stt body =>
         let detail := match body with
                       | Json _ msg => Js.or_else msg stt
                       | NotJson => stt
                       end in
         catch_block uid file ("Failed to move file to folder: " ++ detail)
     | MoveRejected m => catch_block uid file m
     end
   else success).

(** [uploadFile(uploadId, file)]: the effects it performs, given how the
    transport answers. *)
Definition uploadFile (ctx : upload_ctx) (uid : string) (file : LocalFile)
    (run : xhr_run) (mv : move_result) : list effect :=
  if negb (Js.truthy (token ctx)) then
    [SetUploads (SetError uid);
     AddToast toast_error "Authentication required for file upload"]
  else
    let base := restBaseUrl (env_rest_base ctx) in
    let t := Js.trim (tags ctx) in
    XhrPost (base ++ "/files") ("Bearer " ++ Js.or_else (token ctx) "") xhr_timeout
            (if String.eqb t "" then None else Some t) ::
    (progress_updates uid (progress_events run) ++
     match terminal run with
     | None => []
     | Some term =>
         match xhr_outcome term with
         | inl fid => after_upload ctx uid file fid mv
         | inr msg => catch_block uid file msg
         end
     end)%list.

(** The item [startRealUpload] creates for a file. *)
Definition new_item (uid : string) (f : LocalFile) : UploadProgressItem :=
  {| id := uid; name := file_name f; progress := 0; size := file_size f; status := uploading |}.

(** [startRealUpload(files)]: one appended item per file, [uids] being the
    generated ids [upload-${Date.now()}-${Math.random()}]. *)
Definition startRealUpload (uids : list string) (files : list LocalFile) : list uploads_update :=
  map (fun p : string * LocalFile => AppendItem (new_item (fst p) (snd p))) (combine uids files).

(** The [setUploads] updaters in an effect list. *)
Definition state_updates (effs : list effect) : list uploads_update :=
  flat_map (fun e => match e with SetUploads up => [up] | _ => [] end) effs.

(** Network requests issued. *)
Definition is_request (e : effect) : bool :=
  match e with XhrPost _ _ _ _ | FetchMove _ _ _ => true | _ => false end.

End Upload.

(** ** Preview resolver ([PreviewModal]) *)
Module Preview.

Record ShareLink := { share_token : string; is_active : bool }.

(** A [FileItem], as far as [loadFilePreview] reads it. *)
Record FileItem := {
  fid : string;   (* file.id *)
  mime_type : string;
  size_bytes : Z;
  share_link : option ShareLink
}.

(** The props of [PreviewModal] and the auth token; the first four are the
    dependencies of [loadFilePreview] and hence of its effect. *)
Record props := {
  file : option FileItem;
  isOpen : bool;
  token : option string;
  isPublic : bool
}.

(** The refs, the React state and what the browser has seen so far.
    Controllers and object URLs are numbered in creation order. *)
Record state := {
  currentBlobUrl : option nat;
  currentFileId : option string;
  abortController : option nat;
  loadingRef : bool;
  previewUrlRef : option nat;
  loading : bool;
  previewUrl : option nat;
  error : option string;
  aborted : list nat;                     (* controllers whose [abort()] ran *)
  next_ctl : nat;
  next_url : nat;
  created : list nat;                     (* [URL.createObjectURL] results *)
  revoked : list nat;                     (* [URL.revokeObjectURL] calls *)
  fetches : list (string * option string);(* [fetch(url, {headers})]: url, Authorization *)
  pending : list nat;                     (* controllers of the awaited races *)
  mounted_props : option props;           (* props of the last effect run *)
  unmounted : bool
}.

Definition init : state :=
  {| currentBlobUrl := None; currentFileId := None; abortController := None;
     loadingRef := false; previewUrlRef := None; loading := false; previewUrl := None;
     error := None; aborted := []; next_ctl := 0; next_url := 0; created := [];
     revoked := []; fetches := []; pending := []; mounted_props := None; unmounted := false |}.

(** [URL.revokeObjectURL(currentBlobUrl.current)] when set, then
    [currentBlobUrl.current = null]. *)
Definition revoke_current (s : state) : state :=
  match currentBlobUrl s with
  | Some u =>
      {| currentBlobUrl := None; currentFileId := currentFileId s; abortController := abortController s;
         loadingRef := loadingRef s; previewUrlRef := previewUrlRef s; loading := loading s;
         previewUrl := previewUrl s; error := error s; aborted := aborted s; next_ctl := next_ctl s;
         next_url := next_url s; created := created s; revoked := revoked s ++ [u];
         fetches := fetches s; pending := pending s; mounted_props := mounted_props s; unmounted := unmounted s |}
  | None => s
  end.

(** [abortController.current.abort()] when set, then the ref is nulled
    ([loadFilePreview] overwrites it right after with a new controller). *)
Definition abort_current (s : state) : state :=
  match abortController s with
  | Some c =>
      {| currentBlobUrl := currentBlobUrl s; currentFileId := currentFileId s; abortController := None;
         loadingRef := loadingRef s; previewUrlRef := previewUrlRef s; loading := loading s;
         previewUrl := previewUrl s; error := error s; aborted := aborted s ++ [c];
         next_ctl := next_ctl s; next_url := next_url s; created := created s; revoked := revoked s;
         fetches := fetches s; pending := pending s; mounted_props := mounted_props s; unmounted := unmounted s |}
  | None => s
  end.

(** The React state and refs written by the resolver. *)
Definition set_view (s : state) (ld : bool) (lref : bool) (pu : option nat) (pref : option nat)
    (e : option string) (cfid : option string) : state :=
  {| currentBlobUrl := currentBlobUrl s; currentFileId := cfid; abortController := abortController s;
     loadingRef := lref; previewUrlRef := pref; loading := ld; previewUrl := pu; error := e;
     aborted := aborted s; next_ctl := next_ctl s; next_url := next_url s; created := created s;
     revoked := revoked s; fetches := fetches s; pending := pending s; mounted_props := mounted_props s;
     unmounted := unmounted s |}.

Definition start_controller (s : state) : state :=
  {| currentBlobUrl := currentBlobUrl s; currentFileId := currentFileId s;
     abortController := Some (next_ctl s); loadingRef := loadingRef s;
     previewUrlRef := previewUrlRef s; loading := loading s; previewUrl := previewUrl s;
     error := error s; aborted := aborted s; next_ctl := S (next_ctl s); next_url := next_url s;
     created := created s; revoked := revoked s; fetches := fetches s; pending := pending s;
     mounted_props := mounted_props s; unmounted := unmounted s |}.

(** [fetch(downloadUrl, {headers, signal})] started; its race awaited. *)
Definition start_fetch (s : state) (url : string) (auth : option string) (c : nat) : state :=
  {| currentBlobUrl := currentBlobUrl s; currentFileId := currentFileId s;
     abortController := abortController s; loadingRef := loadingRef s;
     previewUrlRef := previewUrlRef s; loading := loading s; previewUrl := previewUrl s;
     error := error s; aborted := aborted s; next_ctl := next_ctl s; next_url := next_url s;
     created := created s; revoked := revoked s; fetches := fetches s ++ [(url, auth)];
     pending := pending s ++ [c]; mounted_props := mounted_props s; unmounted := unmounted s |}.

(** [URL.createObjectURL(blob)] stored in [currentBlobUrl] and [previewUrlRef]. *)
Definition create_url (s : state) : state :=
  {| currentBlobUrl := Some (next_url s); currentFileId := currentFileId s;
     abortController := abortController s; loadingRef := loadingRef s;
     previewUrlRef := Some (next_url s); loading := loading s; previewUrl := Some (next_url s);
     error := error s; aborted := aborted s; next_ctl := next_ctl s; next_url := S (next_url s);
     created := created s ++ [next_url s]; revoked := revoked s; fetches := fetches s;
     pending := pending s; mounted_props := mounted_props s; unmounted := unmounted s |}.

Definition drop_pending (s : state) (c : nat) : state :=
  {| currentBlobUrl := currentBlobUrl s; currentFileId := currentFileId s;
     abortController := abortController s; loadingRef := loadingRef s;
     previewUrlRef := previewUrlRef s; loading := loading s; previewUrl := previewUrl s;
     error := error s; aborted := aborted s; next_ctl := next_ctl s; next_url := next_url s;
     created := created s; revoked := revoked s; fetches := fetches s;
     pending := remove Nat.eq_dec c (pending s); mounted_props := mounted_props s;
     unmounted := unmounted s |}.

Definition set_mounted (s : state) (p : option props) (u : bool) : state :=
  {| currentBlobUrl := currentBlobUrl s; currentFileId := currentFileId s;
     abortController := abortController s; loadingRef := loadingRef s;
     previewUrlRef := previewUrlRef s; loading := loading s; previewUrl := previewUrl s;
     error := error s; aborted := aborted s; next_ctl := next_ctl s; next_url := next_url s;
     created := created s; revoked := revoked s; fetches := fetches s; pending := pending s;
     mounted_props := p; unmounted := u |}.

(** MIME classification in [loadFilePreview]. *)
Definition isImageFile (f : FileItem) : bool := Js.starts_with "image/" (mime_type f).
Definition isTextFile (f : FileItem) : bool :=
  Js.starts_with "text/" (mime_type f) ||
  String.eqb (mime_type f) "application/json" ||
  String.eqb (mime_type f) "application/javascript" ||
  String.eqb (mime_type f) "text/csv".
Definition isPDFFile (f : FileItem) : bool := String.eqb (mime_type f) "application/pdf".
Definition isVideoFile (f : FileItem) : bool :=
  Js.starts_with "video/" (mime_type f) || String.eqb (mime_type f) "video/mp4".

(** [isText] of the rendering code of the same component. *)
Definition isText_render (f : FileItem) : bool :=
  Js.starts_with "text/" (mime_type f) ||
  existsb (String.eqb (mime_type f))
    ["application/json"; "application/javascript"; "application/xml"; "application/x-yaml";
     "text/csv"; "text/yaml"; "text/yml"].

(** [file.share_link?.token && file.share_link?.is_active] *)
Definition hasPublicToken (f : FileItem) : bool :=
  match share_link f with
  | Some sl => Js.truthy (Some (share_token sl)) && is_active sl
  | None => false
  end.

Definition restBaseUrl (env : option string) : string :=
  Js.or_else env "http://localhost:8080/api/v1".

Definition downloadUrl (env : option string) (f : FileItem) : string :=
  match share_link f with
  | Some sl => if hasPublicToken f then restBaseUrl env ++ "/p/" ++ share_token sl
               else restBaseUrl env ++ "/files/" ++ fid f ++ "/download"
  | None => restBaseUrl env ++ "/files/" ++ fid f ++ "/download"
  end.

(** The [Authorization] header of the preview fetch, if any. *)
Definition authHeader (p : props) (f : FileItem) : option string :=
  if isPublic p || hasPublicToken f then None
  else Some ("Bearer " ++ Js.or_else (token p) "").

(** [catch (err)] with a live signal, then [finally]. *)
Definition fail (s : state) (msg : string) : state :=
  set_view s false false None None (Some msg) (currentFileId s).

(** The re-resolve guard of [loadFilePreview]. *)
Definition guard_hit (f : FileItem) (s : state) : bool :=
  match currentFileId s with
  | Some i => String.eqb i (fid f) && (loadingRef s || match previewUrlRef s with Some _ => true | None => false end)
  | None => false
  end.

(** [loadFilePreview()] up to its first [await]. *)
Definition loadFilePreview (env : option string) (p : props) (s : state) : state :=
  match file p with
  | Some f =>
      if negb (isOpen p) then
        set_view (abort_current (revoke_current s)) false false None None None None
      else if guard_hit f s then s
      else
        let s1 := start_controller (abort_current s) in
        let c := next_ctl (abort_current s) in
        let s2 := set_view s1 true true (previewUrl s1) (previewUrlRef s1) None (Some (fid f)) in
        if isImageFile f || isTextFile f || isPDFFile f || isVideoFile f then
          if negb (Js.truthy (token p)) && negb (isPublic p) then
            fail s2 "Authentication required for file preview"
          else if isTextFile f && (500000 <? size_bytes f)%Z then
            fail s2 "Text file too large for preview (max 500KB)"
          else if isVideoFile f && (100000000 <? size_bytes f)%Z then
            fail s2 "Video file too large for preview (max 100MB)"
          else if isPDFFile f && (50000000 <? size_bytes f)%Z then
            fail s2 "PDF file too large for preview (max 50MB)"
          else start_fetch s2 (downloadUrl env f) (authHeader p f) c
        else set_view s2 false false None None (error s2) (currentFileId s2)
  | None => set_view (abort_current (revoke_current s)) false false None None None None
  end.

(** [loadFilePreview] with this file reaches its [fetch]: open,
    previewable by its MIME classification, a token or a public context, and
    within the size ceilings. *)
Definition fetch_ready (p : props) (f : FileItem) : bool :=
  isOpen p && (isImageFile f || isTextFile f || isPDFFile f || isVideoFile f)
  && (Js.truthy (token p) || isPublic p)
  && negb (isTextFile f && (500000 <? size_bytes f)%Z)
  && negb (isVideoFile f && (100000000 <? size_bytes f)%Z)
  && negb (isPDFFile f && (50000000 <? size_bytes f)%Z).



(** How the awaited race of a preview fetch settles. *)
Inductive fetch_outcome :=
| FetchResponse (ok : bool) (st : Z) (statusText : string)
| FetchRejected (message : string).

(** The rest of [loadFilePreview] once the race of controller [c] settles. *)
Definition settle (c : nat) (o : fetch_outcome) (s : state) : state :=
  if negb (existsb (Nat.eqb c) (pending s)) then s else
  let s := drop_pending s c in
  if existsb (Nat.eqb c) (aborted s) then s else
  match o with
  | FetchResponse true _ _ =>
      let s' := create_url (revoke_current s) in
      set_view s' false false (previewUrl s') (previewUrlRef s') (error s') (currentFileId s')
  | FetchResponse false st stt =>
      fail s ("Failed to load preview: " ++ Js.z_to_string st ++ " " ++ stt)
  | FetchRejected m => fail s m
  end.

(** The effect's cleanup: abort, then revoke. *)
Definition cleanup (s : state) : state := revoke_current (abort_current s).

(** What can happen to a mounted [PreviewModal]: the first effect run, a
    re-run because [loadFilePreview] changed (one of [file], [isOpen],
    [token], [isPublic] is a new value), a fetch race settling, unmount. *)
Inductive event :=
| Mount (p : props)
| Rerun (p : props)
| Settle (c : nat) (o : fetch_outcome)
| Unmount.

Definition step (env : option string) (s : state) (e : event) : state :=
  match e with
  | Mount p =>
      match mounted_props s with
      | None => if unmounted s then s else set_mounted (loadFilePreview env p s) (Some p) false
      | Some _ => s
      end
  | Rerun p =>
      match mounted_props s with
      | Some _ => if unmounted s then s
                  else set_mounted (loadFilePreview env p (cleanup s)) (Some p) false
      | None => s
      end
  | Settle c o => settle c o s
  | Unmount =>
      match mounted_props s with
      | Some q => if unmounted s then s else set_mounted (cleanup s) (Some q) true
      | None => s
      end
  end.

Definition run (env : option string) (es : list event) (s : state) : state :=
  fold_left (step env) es s.

End Preview.

(** ** [removeUpload] of [UploadButton] *)
Module UploadRows.
Import Upload.


End UploadRows.

(** ** The simulated-progress [UploadButton] (the older component of the
    same file: [handleFileSelect] with [setInterval]) *)
Module SimUpload.

(** A plain object used as [Record<string, number>], as its own entries.
    The order of the entries is not modelled (JS lists integer-like keys
    first); nothing below depends on it. *)
Definition obj := list (string * Z).


(** [{ ...o, [k]: v }] *)
Fixpoint set (k : string) (v : Z) (o : obj) : obj :=
  match o with
  | [] => [(k, v)]
  | (k', v') :: r => if String.eqb k k' then (k, v) :: r else (k', v') :: set k v r
  end.












End SimUpload.

(** ** What [PreviewModal] renders, and the other consumers of the MIME type *)
Module PreviewView.
Import Preview.

(** The kind tests of the rendering code ([isText] is [isText_render]). *)
Definition isImage (f : FileItem) : bool := Js.starts_with "image/" (mime_type f).
Definition isPDF (f : FileItem) : bool := String.eqb (mime_type f) "application/pdf".
Definition isVideo (f : FileItem) : bool :=
  Js.starts_with "video/" (mime_type f) ||
  existsb (String.eqb (mime_type f))
    ["video/mp4"; "video/webm"; "video/ogg"; "video/avi"; "video/mov"].

(** The panels of [renderPreview]. *)
Inductive view :=
| Spinner                                     (* Loading preview... *)
| ErrorPanel (msg : string)                   (* Failed to load preview *)
| ImageView (u : nat)
| TextView (u : nat)                          (* <TextPreview blobUrl=...> *)
| PDFView (u : nat)                           (* <PDFPreview blobUrl=...> *)
| VideoView (u : nat)
| FailedToLoad (pdf text video : bool)        (* Preview failed to load, with the kind lines *)
| NotAvailable.                               (* Preview not available *)

(** [renderPreview()] for the open [file]. *)
Definition renderPreview (f : FileItem) (s : state) : view :=
  if loading s then Spinner
  else if Js.truthy (error s) then ErrorPanel (Js.or_else (error s) "")
  else
    match previewUrl s with
    | Some u =>
        if isImage f then ImageView u
        else if isText_render f then TextView u
        else if isPDF f then PDFView u
        else if isVideo f then VideoView u
        else NotAvailable
    | None =>
        if isPDF f || isText_render f || isVideo f
        then FailedToLoad (isPDF f) (isText_render f) (isVideo f)
        else NotAvailable
    end.

(** [canPreview] of a file row in [FolderTree] (the Preview button). *)
Definition canPreview (mime : string) : bool :=
  Js.starts_with "image/" mime || Js.starts_with "video/" mime ||
  Js.starts_with "text/" mime || String.eqb mime "application/pdf" ||
  String.eqb mime "application/json".

End PreviewView.

(** ** [PDFPreview]: iframe first, then an [<object>] fallback *)
Module PDFPreview.

Record pdf_state := { iframeError : bool; loading : bool; retryWithObject : bool }.

Definition pdf_init : pdf_state :=
  {| iframeError := false; loading := true; retryWithObject := false |}.

Definition handleIframeLoad (s : pdf_state) : pdf_state :=
  {| iframeError := iframeError s; loading := false; retryWithObject := retryWithObject s |}.

Definition handleIframeError (s : pdf_state) : pdf_state :=
  if negb (retryWithObject s)
  then {| iframeError := iframeError s; loading := true; retryWithObject := true |}
  else {| iframeError := true; loading := false; retryWithObject := retryWithObject s |}.

Definition handleObjectError (s : pdf_state) : pdf_state :=
  {| iframeError := true; loading := false; retryWithObject := retryWithObject s |}.

(** Load and error events of the embedded [<iframe>] and [<object>]. *)
Inductive pdf_event := IframeLoad | IframeErr | ObjectLoad | ObjectErr.

(** The events React hands to a component handler: for [<iframe>] and
    [<object>] React attaches a listener for [load] only, so an [error]
    event of these elements reaches neither [onError] handler. *)
Definition react_dispatches (e : pdf_event) : bool :=
  match e with IframeLoad | ObjectLoad => true | IframeErr | ObjectErr => false end.

(** An element only fires while it is rendered: the iframe while
    [!retryWithObject], the object after, neither once [iframeError] shows
    the fallback panel. The object's [onLoad] is [handleIframeLoad]. *)
Definition pdf_step (s : pdf_state) (e : pdf_event) : pdf_state :=
  if negb (react_dispatches e) then s
  else if iframeError s then s
  else if negb (retryWithObject s) then
    match e with
    | IframeLoad => handleIframeLoad s
    | IframeErr => handleIframeError s
    | _ => s
    end
  else
    match e with
    | ObjectLoad => handleIframeLoad s
    | ObjectErr => handleObjectError s
    | _ => s
    end.

Definition pdf_run (es : list pdf_event) (s : pdf_state) : pdf_state := fold_left pdf_step es s.

End PDFPreview.

(** ** [ToastProvider] *)
Module Toasts.

Record ToastItem := { toast_id : string; toast_type : string; message : string }.

(** [addToast(type, message)], [id] being the generated
    [Math.random().toString(36).substr(2, 9)]. *)
Definition addToast (id type msg : string) (prev : list ToastItem) : list ToastItem :=
  prev ++ [{| toast_id := id; toast_type := type; message := msg |}].

(** [removeToast(id)] *)
Definition removeToast (id : string) (prev : list ToastItem) : list ToastItem :=
  filter (fun t => negb (String.eqb (toast_id t) id)) prev.

End Toasts.

(** ** File icons ([getFileIcon], [getIconColorClass]; the [getFileIcon]
    of [FolderTree] is the same function) *)
Module FileIcons.

Inductive icon :=
| Image | Film | Music | FileText | FileSpreadsheet | Presentation
| FileArchive | FileJson | FileCode | Database | File.

(** [s.includes(sub)] *)
Fixpoint includes (sub s : string) : bool :=
  String.prefix sub s ||
  match s with
  | EmptyString => false
  | String _ r => includes sub r
  end.

(** The characters before the first ['.'] *)
Fixpoint upto_dot (s : string) : string :=
  match s with
  | EmptyString => EmptyString
  | String c r => if Ascii.eqb c "." then EmptyString else String c (upto_dot r)
  end.

(** [filename.split('.').pop()]: the text after the last ['.'], or the whole
    name when it has none. *)
Definition last_piece (s : string) : string := Js.rev_str (upto_dot (Js.rev_str s "")) "".

Definition lower_ascii (c : ascii) : ascii :=
  let n := nat_of_ascii c in
  if (65 <=? n)%nat && (n <=? 90)%nat then ascii_of_nat (n + 32) else c.

(** [toLowerCase()] on the ASCII letters (the extensions compared are ASCII). *)
Fixpoint to_lower (s : string) : string :=
  match s with
  | EmptyString => EmptyString
  | String c r => String (lower_ascii c) (to_lower r)
  end.

(** [filename.split('.').pop()?.toLowerCase() || '']; [pop()] of a split
    is never [undefined]. *)
Definition ext_of (filename : string) : string := to_lower (last_piece filename).

Definition one_of (ext : string) (l : list string) : bool := existsb (String.eqb ext) l.

Definition getFileIcon (mimeType filename : string) : icon :=
  let ext := ext_of filename in
  if Js.starts_with "image/" mimeType then Image
  else if Js.starts_with "video/" mimeType then Film
  else if Js.starts_with "audio/" mimeType then Music
  else if String.eqb mimeType "application/pdf" then FileText
  else if includes "spreadsheet" mimeType || includes "excel" mimeType
          || one_of ext ["xls"; "xlsx"; "csv"] then FileSpreadsheet
  else if includes "presentation" mimeType || includes "powerpoint" mimeType
          || one_of ext ["ppt"; "pptx"] then Presentation
  else if includes "word" mimeType || one_of ext ["doc"; "docx"] then FileText
  else if includes "zip" mimeType || includes "rar" mimeType
          || one_of ext ["zip"; "rar"; "tar"; "gz"; "7z"] then FileArchive
  else if includes "json" mimeType || String.eqb ext "json" then FileJson
  else if includes "javascript" mimeType || includes "typescript" mimeType
          || includes "xml" mimeType || includes "html" mimeType || includes "css" mimeType
  then FileCode
  else if one_of ext ["js"; "ts"; "jsx"; "tsx"; "py"; "java"; "cpp"; "c"; "h"; "go";
                      "html"; "css"; "xml"] then FileCode
  else if includes "sql" mimeType || one_of ext ["sql"; "db"] then Database
  else if Js.starts_with "text/" mimeType || one_of ext ["txt"; "md"; "rtf"] then FileText
  else File.

Definition getIconColorClass (mimeType filename : string) : string :=
  let ext := ext_of filename in
  if Js.starts_with "image/" mimeType then "text-pink-500 bg-pink-100 dark:bg-pink-900/30"
  else if Js.starts_with "video/" mimeType then "text-purple-500 bg-purple-100 dark:bg-purple-900/30"
  else if Js.starts_with "audio/" mimeType then "text-orange-500 bg-orange-100 dark:bg-orange-900/30"
  else if String.eqb mimeType "application/pdf" then "text-red-500 bg-red-100 dark:bg-red-900/30"
  else if includes "spreadsheet" mimeType || includes "excel" mimeType
          || one_of ext ["xls"; "xlsx"; "csv"]
  then "text-green-500 bg-green-100 dark:bg-green-900/30"
  else if includes "presentation" mimeType || includes "powerpoint" mimeType
          || one_of ext ["ppt"; "pptx"]
  then "text-amber-500 bg-amber-100 dark:bg-amber-900/30"
  else if includes "word" mimeType || one_of ext ["doc"; "docx"]
  then "text-blue-500 bg-blue-100 dark:bg-blue-900/30"
  else if includes "zip" mimeType || includes "rar" mimeType
          || one_of ext ["zip"; "rar"; "tar"; "gz"; "7z"]
  then "text-yellow-600 bg-yellow-100 dark:bg-yellow-900/30"
  else if includes "json" mimeType || String.eqb ext "json"
  then "text-teal-500 bg-teal-100 dark:bg-teal-900/30"
  else if includes "javascript" mimeType || includes "typescript" mimeType
          || one_of ext ["js"; "ts"; "jsx"; "tsx"]
  then "text-emerald-500 bg-emerald-100 dark:bg-emerald-900/30"
  else if includes "sql" mimeType || one_of ext ["sql"; "db"]
  then "text-indigo-500 bg-indigo-100 dark:bg-indigo-900/30"
  else if Js.starts_with "text/" mimeType || one_of ext ["txt"; "md"; "rtf"]
  then "text-slate-500 bg-slate-100 dark:bg-slate-900/30"
  else "text-primary bg-primary/10".

End FileIcons.

(** ** Binary64 rounding: properties *)
Module F64Proofs.
Import F64.
Local Open Scope Q_scope.

Lemma inject_Z_succ z : inject_Z (z + 1) == inject_Z z + 1.
Proof. rewrite inject_Z_plus. reflexivity. Qed.

Lemma rhe_near x :
  inject_Z (rhe x) - (1#2) <= x /\ x <= inject_Z (rhe x) + (1#2).
Proof.
  unfold rhe. pose proof (Qfloor_le x). pose proof (Qlt_floor x).
  set (f := Qfloor x) in *. clearbody f. rewrite inject_Z_succ in H0.
  destruct (Qcompare (2 * (x - inject_Z f)) 1) eqn:E.
  - apply Qeq_alt in E. destruct (Z.even f); rewrite ?inject_Z_succ; split; lra.
  - apply Qlt_alt in E. split; lra.
  - apply Qgt_alt in E. rewrite inject_Z_succ. split; lra.
Qed.

Lemma rhe_tie x :
  (x == inject_Z (rhe x) + (1#2) \/ x == inject_Z (rhe x) - (1#2)) -> Z.even (rhe x) = true.
Proof.
  unfold rhe. pose proof (Qfloor_le x). pose proof (Qlt_floor x).
  set (f := Qfloor x) in *. clearbody f. rewrite inject_Z_succ in H0.
  destruct (Qcompare (2 * (x - inject_Z f)) 1) eqn:E.
  - destruct (Z.even f) eqn:Ev; [auto|]. intros _. rewrite Z.even_add, Ev. reflexivity.
  - apply Qlt_alt in E. rewrite ?inject_Z_succ. intros [Hx|Hx]; exfalso; lra.
  - apply Qgt_alt in E. rewrite ?inject_Z_succ. intros [Hx|Hx]; exfalso; lra.
Qed.

Lemma rhe_mono x y : x <= y -> (rhe x <= rhe y)%Z.
Proof.
  intros Hxy. destruct (Z_le_gt_dec (rhe x) (rhe y)) as [|Hlt]; [assumption|exfalso].
  pose proof (rhe_near x). pose proof (rhe_near y).
  assert (Hi : inject_Z (rhe y) + 1 <= inject_Z (rhe x)).
  { rewrite <- inject_Z_succ. rewrite <- Zle_Qle. lia. }
  assert (Ex : Z.even (rhe x) = true) by (apply rhe_tie; right; lra).
  assert (Ey : Z.even (rhe y) = true) by (apply rhe_tie; left; lra).
  assert (rhe x = rhe y + 1)%Z.
  { apply Z.le_antisymm; [|lia]. rewrite Zle_Qle, inject_Z_succ. lra. }
  rewrite H1, Z.even_add, Ey in Ex. discriminate.
Qed.

Lemma rhe_ge x k : inject_Z k <= x -> (k <= rhe x)%Z.
Proof.
  intros H. destruct (Z_le_gt_dec k (rhe x)) as [|Hg]; [assumption|exfalso].
  pose proof (rhe_near x). pose proof (rhe_tie x).
  assert (Hi : inject_Z (rhe x) + 1 <= inject_Z k) by (rewrite <- inject_Z_succ, <- Zle_Qle; lia).
  assert (E : Z.even (rhe x) = true) by (apply H1; left; lra).
  lra.
Qed.

Lemma rhe_le x k : x <= inject_Z k -> (rhe x <= k)%Z.
Proof.
  intros H. destruct (Z_le_gt_dec (rhe x) k) as [|Hg]; [assumption|exfalso].
  pose proof (rhe_near x).
  assert (Hi : inject_Z k + 1 <= inject_Z (rhe x)) by (rewrite <- inject_Z_succ, <- Zle_Qle; lia).
  lra.
Qed.

Lemma pow2_pos z : 0 < 2 ^ z.
Proof. apply Qpower_0_lt. reflexivity. Qed.

Lemma pow2_Z z : (0 <= z)%Z -> inject_Z (2 ^ z) == 2 ^ z.
Proof. intros H. rewrite Zpower_Qpower by exact H. reflexivity. Qed.

Lemma pow2_plus a b : 2 ^ (a + b) == 2 ^ a * 2 ^ b.
Proof. apply Qpower_plus. discriminate. Qed.

Lemma pow2_mono a b : (a <= b)%Z -> 2 ^ a <= 2 ^ b.
Proof. intros H. apply Qpower_le_compat_l; [exact H|]. discriminate. Qed.

Lemma pow2_lt_inv a b : 2 ^ a < 2 ^ b -> (a < b)%Z.
Proof. intros H. apply Qpower_lt_compat_l_inv with (q := 2); [exact H|]. reflexivity. Qed.

Lemma flog2_spec x : 0 < x -> 2 ^ flog2 x <= x /\ x < 2 ^ (flog2 x + 1).
Proof.
  destruct x as [n d]. intros Hx.
  assert (Hn : (0 < n)%Z) by (unfold Qlt in Hx; simpl in Hx; lia).
  unfold flog2. cbn [Qnum Qden].
  set (a := Z.log2 n). set (b := Z.log2 (Z.pos d)).
  destruct (Z.log2_spec n Hn) as [Ha1 Ha2]. destruct (Z.log2_spec (Z.pos d) eq_refl) as [Hb1 Hb2].
  fold a in Ha1, Ha2. fold b in Hb1, Hb2.
  assert (Ha0 : (0 <= a)%Z) by apply Z.log2_nonneg.
  assert (Hb0 : (0 <= b)%Z) by apply Z.log2_nonneg.
  assert (Hq : (n # d) == inject_Z n / inject_Z (Z.pos d)) by apply Qmake_Qdiv.
  assert (Hd : 0 < inject_Z (Z.pos d)) by reflexivity.
  assert (HN1 : 2 ^ a <= inject_Z n) by (rewrite <- pow2_Z by exact Ha0; rewrite <- Zle_Qle; exact Ha1).
  assert (HN2 : inject_Z n < 2 ^ (a + 1))
    by (rewrite <- pow2_Z by lia; rewrite <- Zlt_Qlt; rewrite Z.add_1_r; exact Ha2).
  assert (HD1 : 2 ^ b <= inject_Z (Z.pos d))
    by (rewrite <- pow2_Z by exact Hb0; rewrite <- Zle_Qle; exact Hb1).
  assert (HD2 : inject_Z (Z.pos d) < 2 ^ (b + 1))
    by (rewrite <- pow2_Z by lia; rewrite <- Zlt_Qlt; rewrite Z.add_1_r; exact Hb2).
  (* lower bound 2^(a-b-1) <= n/d and upper bound n/d < 2^(a-b+1) *)
  assert (Lo : 2 ^ (a - b - 1) <= n # d).
  { rewrite Hq. apply Qle_shift_div_l; [exact Hd|].
    apply Qle_trans with (2 ^ (a - b - 1) * 2 ^ (b + 1)).
    - apply Qmult_le_l; [apply pow2_pos|]. apply Qlt_le_weak. exact HD2.
    - rewrite <- pow2_plus. replace (a - b - 1 + (b + 1))%Z with a by lia. exact HN1. }
  assert (Hi : (n # d) < 2 ^ (a - b + 1)).
  { rewrite Hq. apply Qlt_shift_div_r; [exact Hd|].
    apply Qlt_le_trans with (2 ^ (a - b + 1) * 2 ^ b).
    - rewrite <- pow2_plus. replace (a - b + 1 + b)%Z with (a + 1)%Z by lia. exact HN2.
    - apply Qmult_le_l; [apply pow2_pos|]. exact HD1. }
  destruct (Qle_bool (2 ^ (a - b)) (n # d)) eqn:E.
  - apply Qle_bool_iff in E. split; [exact E|exact Hi].
  - split; [exact Lo|]. replace (a - b - 1 + 1)%Z with (a - b)%Z by lia.
    apply Qnot_le_lt. intros H. apply Qle_bool_iff in H. congruence.
Qed.

Lemma round_pos_bounds x : 0 < x ->
  2 ^ flog2 x <= round_pos x /\ round_pos x <= 2 ^ (flog2 x + 1).
Proof.
  intros Hx. destruct (flog2_spec x Hx) as [H1 H2]. unfold round_pos.
  set (e := flog2 x) in *. set (s := (e - 52)%Z).
  assert (Hs : 0 < 2 ^ s) by apply pow2_pos.
  assert (E1 : 2 ^ e == 2 ^ 52 * 2 ^ s)
    by (rewrite <- pow2_plus; unfold s; replace (52 + (e - 52))%Z with e by lia; reflexivity).
  assert (E2 : 2 ^ (e + 1) == 2 ^ 53 * 2 ^ s)
    by (rewrite <- pow2_plus; unfold s; replace (53 + (e - 52))%Z with (e + 1)%Z by lia; reflexivity).
  rewrite E1, E2. split.
  - apply Qmult_le_compat_r; [|apply Qlt_le_weak; exact Hs].
    rewrite <- (pow2_Z 52) by lia. rewrite <- Zle_Qle. apply rhe_ge.
    rewrite (pow2_Z 52) by lia. apply Qle_shift_div_l; [exact Hs|]. rewrite <- E1. exact H1.
  - apply Qmult_le_compat_r; [|apply Qlt_le_weak; exact Hs].
    rewrite <- (pow2_Z 53) by lia. rewrite <- Zle_Qle. apply rhe_le.
    rewrite (pow2_Z 53) by lia. apply Qle_shift_div_r; [exact Hs|]. rewrite <- E2.
    apply Qlt_le_weak. exact H2.
Qed.

Lemma round_pos_mono x y : 0 < x -> x <= y -> round_pos x <= round_pos y.
Proof.
  intros Hx Hxy. assert (Hy : 0 < y) by (apply Qlt_le_trans with x; assumption).
  destruct (flog2_spec x Hx) as [Hx1 Hx2]. destruct (flog2_spec y Hy) as [Hy1 Hy2].
  assert (Hle : (flog2 x < flog2 y + 1)%Z).
  { apply pow2_lt_inv. apply Qle_lt_trans with x; [exact Hx1|].
    apply Qle_lt_trans with y; assumption. }
  destruct (Z.eq_dec (flog2 x) (flog2 y)) as [Heq|Hne].
  - unfold round_pos. rewrite Heq. set (s := (flog2 y - 52)%Z).
    apply Qmult_le_compat_r; [|apply Qlt_le_weak, pow2_pos].
    rewrite <- Zle_Qle. apply rhe_mono.
    apply Qmult_le_compat_r; [exact Hxy|]. apply Qinv_le_0_compat, Qlt_le_weak, pow2_pos.
  - destruct (round_pos_bounds x Hx) as [_ Rx]. destruct (round_pos_bounds y Hy) as [Ry _].
    apply Qle_trans with (2 ^ (flog2 x + 1)); [exact Rx|].
    apply Qle_trans with (2 ^ flog2 y); [|exact Ry].
    apply pow2_mono. lia.
Qed.

Lemma round_pos_pos x : 0 < x -> 0 < round_pos x.
Proof.
  intros Hx. apply Qlt_le_trans with (2 ^ flog2 x); [apply pow2_pos|].
  apply (round_pos_bounds x Hx).
Qed.

Lemma round64_mono x y : x <= y -> round64 x <= round64 y.
Proof.
  intros Hxy. unfold round64.
  destruct (Qle_bool x 0) eqn:Ex, (Qle_bool 0 x) eqn:Ex', (Qle_bool y 0) eqn:Ey, (Qle_bool 0 y) eqn:Ey';
    rewrite ?Qle_bool_iff in *;
    repeat match goal with H : Qle_bool _ _ = false |- _ =>
             apply not_true_iff_false in H; rewrite Qle_bool_iff in H; apply Qnot_le_lt in H end;
    try lra;
    repeat match goal with |- context [round_pos ?z] =>
      lazymatch goal with H : 0 < round_pos z |- _ => fail | _ =>
        assert (0 < round_pos z) by (apply round_pos_pos; lra) end end;
    try lra.
  all: first [ assert (round_pos (- y) <= round_pos (- x)) by (apply round_pos_mono; lra); lra
             | apply round_pos_mono; lra ].
Qed.

Lemma js_round_mono x y : x <= y -> (js_round x <= js_round y)%Z.
Proof. intros H. unfold js_round. apply Qfloor_resp_le. lra. Qed.

Lemma round64_0 : round64 0 == 0.
Proof. reflexivity. Qed.
Lemma round64_1 : round64 1 == 1.
Proof. vm_compute. reflexivity. Qed.
Lemma round64_100 : round64 100 == 100.
Proof. vm_compute. reflexivity. Qed.

End F64Proofs.

(** ** Upload coordinator: properties *)
Module UploadProofs.
Import Upload.

(** The entries of the [uploads] list carrying id [j]. *)
Definition task_of (j : string) (s : list UploadProgressItem) : list UploadProgressItem :=
  filter (fun u => String.eqb (id u) j) s.

Definition about (j : string) (up : uploads_update) : bool :=
  String.eqb (update_target up) j.

Lemma task_of_map_other (g : UploadProgressItem -> UploadProgressItem) uid j s :
  (forall u, id (g u) = id u) -> uid <> j ->
  task_of j (map (fun u => if String.eqb (id u) uid then g u else u) s) = task_of j s.
Proof.
  intros Hg Hne; induction s as [|u s IH]; simpl; [reflexivity|].
  destruct (String.eqb_spec (id u) uid) as [E|E]; simpl.
  - rewrite Hg, E. destruct (String.eqb_spec uid j); [contradiction|]. exact IH.
  - destruct (String.eqb (id u) j); [f_equal|]; exact IH.
Qed.

Lemma task_of_map_same (g : UploadProgressItem -> UploadProgressItem) j s :
  (forall u, id (g u) = id u) ->
  task_of j (map (fun u => if String.eqb (id u) j then g u else u) s)
  = map (fun u => if String.eqb (id u) j then g u else u) (task_of j s).
Proof.
  intros Hg; induction s as [|u s IH]; simpl; [reflexivity|].
  destruct (String.eqb_spec (id u) j) as [E|E]; simpl.
  - rewrite Hg, E, String.eqb_refl. simpl. rewrite ?E, ?String.eqb_refl. f_equal; exact IH.
  - apply String.eqb_neq in E. rewrite E. exact IH.
Qed.

Lemma task_of_remove_other uid j s :
  uid <> j ->
  task_of j (filter (fun u => negb (String.eqb (id u) uid)) s) = task_of j s.
Proof.
  intros Hne; induction s as [|u s IH]; simpl; [reflexivity|].
  destruct (String.eqb_spec (id u) uid) as [E|E]; simpl.
  - rewrite E. destruct (String.eqb_spec uid j); [contradiction|]. exact IH.
  - destruct (String.eqb (id u) j); [f_equal|]; exact IH.
Qed.

Lemma task_of_remove_same j s :
  task_of j (filter (fun u => negb (String.eqb (id u) j)) s) = [].
Proof.
  induction s as [|u s IH]; simpl; [reflexivity|].
  destruct (String.eqb (id u) j) eqn:E; simpl; [exact IH|]. rewrite E. exact IH.
Qed.

Lemma remove_task_of_same j s :
  filter (fun u => negb (String.eqb (id u) j)) (task_of j s) = [].
Proof.
  induction s as [|u s IH]; simpl; [reflexivity|].
  destruct (String.eqb (id u) j) eqn:E; simpl; [rewrite E; exact IH|exact IH].
Qed.

(** An update about another task leaves task [j] as it was. *)
Lemma task_of_apply_other up j s :
  update_target up <> j -> task_of j (apply_update up s) = task_of j s.
Proof.
  intros Hne; destruct up; simpl in *.
  - unfold task_of; rewrite filter_app; simpl.
    destruct (String.eqb_spec (id it) j); [contradiction|]. apply app_nil_r.
  - apply task_of_map_other; auto.
  - apply task_of_map_other; auto.
  - apply task_of_map_other; auto.
  - apply task_of_remove_other; auto.
Qed.

(** An update about task [j] acts on task [j]'s entries alone. *)
Lemma task_of_apply_same up j s :
  update_target up = j -> task_of j (apply_update up s) = apply_update up (task_of j s).
Proof.
  intros <-; destruct up; simpl.
  - unfold task_of; rewrite filter_app; simpl. rewrite String.eqb_refl. reflexivity.
  - apply task_of_map_same; reflexivity.
  - apply task_of_map_same; reflexivity.
  - apply task_of_map_same; reflexivity.
  - rewrite task_of_remove_same, remove_task_of_same. reflexivity.
Qed.

Lemma task_of_apply_updates ups j s :
  task_of j (apply_updates ups s) = apply_updates (filter (about j) ups) (task_of j s).
Proof.
  revert s; induction ups as [|up ups IH]; intros s; simpl; [reflexivity|].
  unfold about at 1. destruct (String.eqb_spec (update_target up) j) as [E|E].
  - simpl. rewrite <- task_of_apply_same by exact E. apply IH.
  - rewrite IH, task_of_apply_other by exact E. reflexivity.
Qed.

(** Every [setUploads] updater of [uploadFile(uid, ...)], immediate or
    delayed, is about task [uid]. *)
Definition delayed_updates (effs : list effect) : list uploads_update :=
  flat_map (fun e => match e with SetTimeoutUpdate _ up => [up] | _ => [] end) effs.

Lemma progress_updates_target uid evs :
  Forall (fun up => update_target up = uid) (state_updates (progress_updates uid evs))
  /\ delayed_updates (progress_updates uid evs) = [].
Proof.
  induction evs as [|[[lc l] t] evs IH]; simpl; [split; constructor|].
  destruct IH as [IH1 IH2].
  destruct lc; simpl; [split; [constructor; [reflexivity|]|]|split]; assumption.
Qed.

Lemma state_updates_app a b :
  state_updates (a ++ b) = (state_updates a ++ state_updates b)%list.
Proof. unfold state_updates. apply flat_map_app. Qed.

Lemma delayed_updates_app a b :
  delayed_updates (a ++ b) = (delayed_updates a ++ delayed_updates b)%list.
Proof. unfold delayed_updates. apply flat_map_app. Qed.

Lemma uploadFile_targets ctx uid f run mv :
  Forall (fun up => update_target up = uid)
    (state_updates (uploadFile ctx uid f run mv) ++ delayed_updates (uploadFile ctx uid f run mv))%list.
Proof.
  unfold uploadFile.
  destruct (negb (Js.truthy (token ctx))); simpl.
  - repeat constructor.
  - destruct (progress_updates_target uid (progress_events run)) as [H1 H2].
    rewrite state_updates_app, delayed_updates_app, H2.
    destruct (terminal run) as [term|]; simpl.
    2:{ rewrite !app_nil_r. exact H1. }
    apply Forall_app; split; [apply Forall_app; split; [exact H1|] |].
    all: destruct (xhr_outcome term) as [fid|msg]; simpl;
      [unfold after_upload; destruct (negb _ && Js.truthy fid); simpl;
       [destruct mv as [[|] ? ?|?]; simpl|]|];
      destruct (has_onUploadComplete ctx); simpl; repeat constructor.
Qed.

(** Updates that change fields of one entry (no append, no removal). *)
Definition is_field_update (up : uploads_update) : bool :=
  match up with SetError _ | SetProgress _ _ | SetCompleted _ => true | _ => false end.

(** What a field update does to the entry it is about. *)
Definition apply_one (it : UploadProgressItem) (up : uploads_update) : UploadProgressItem :=
  match up with
  | SetError _ => with_status it error
  | SetProgress _ p => with_progress it p
  | SetCompleted _ => with_status (with_progress it 100) completed
  | _ => it
  end.

Lemma apply_one_id it up : id (apply_one it up) = id it.
Proof. destruct up; reflexivity. Qed.

Lemma single_task ups it :
  Forall (fun up => update_target up = id it /\ is_field_update up = true) ups ->
  apply_updates ups [it] = [fold_left apply_one ups it].
Proof.
  revert it; induction ups as [|up ups IH]; intros it H; simpl; [reflexivity|].
  inversion H as [|? ? [Ht Hf] Hr]; subst.
  assert (E : apply_update up [it] = [apply_one it up]).
  { destruct up; simpl in *; try discriminate; rewrite Ht, String.eqb_refl; reflexivity. }
  rewrite E. apply IH. eapply Forall_impl; [|exact Hr].
  intros a [Ha Hb]; rewrite apply_one_id; auto.
Qed.

Lemma progress_updates_field uid evs :
  Forall (fun up => is_field_update up = true) (state_updates (progress_updates uid evs)).
Proof.
  induction evs as [|[[lc l] t] evs IH]; simpl; [constructor|].
  destruct lc; simpl; [constructor; [reflexivity|]|]; exact IH.
Qed.

Lemma uploadFile_field ctx uid f run mv :
  Forall (fun up => is_field_update up = true) (state_updates (uploadFile ctx uid f run mv)).
Proof.
  unfold uploadFile.
  destruct (negb (Js.truthy (token ctx))); simpl; [repeat constructor|].
  rewrite state_updates_app. apply Forall_app; split; [apply progress_updates_field|].
  destruct (terminal run) as [term|]; simpl; [|constructor].
  destruct (xhr_outcome term) as [fid|msg]; simpl;
    [unfold after_upload; destruct (negb _ && Js.truthy fid); simpl;
     [destruct mv as [[|] ? ?|?]; simpl|]|];
    destruct (has_onUploadComplete ctx); simpl; repeat constructor.
Qed.

(** The entry of task [uid] once every [setUploads] of [uploadFile] ran. *)
Definition final_item (ctx : upload_ctx) (uid : string) (f : LocalFile)
    (run : xhr_run) (mv : move_result) : UploadProgressItem :=
  fold_left apply_one (state_updates (uploadFile ctx uid f run mv)) (new_item uid f).

Lemma uploadFile_single ctx uid f run mv :
  apply_updates (state_updates (uploadFile ctx uid f run mv)) [new_item uid f]
  = [final_item ctx uid f run mv].
Proof.
  apply single_task.
  pose proof (uploadFile_targets ctx uid f run mv) as Ht.
  apply Forall_app in Ht as [Ht _].
  pose proof (uploadFile_field ctx uid f run mv) as Hf.
  rewrite Forall_forall in *. intros up Hin. split; auto.
Qed.

Lemma apply_updates_app a b s :
  apply_updates (a ++ b) s = apply_updates b (apply_updates a s).
Proof. unfold apply_updates. apply fold_left_app. Qed.

Lemma startRealUpload_appends uids files prev :
  apply_updates (startRealUpload uids files) prev
  = (prev ++ map (fun p : string * LocalFile => new_item (fst p) (snd p)) (combine uids files))%list.
Proof.
  unfold startRealUpload. revert prev.
  induction (combine uids files) as [|[u f] l IH]; intros prev; simpl.
  - rewrite app_nil_r. reflexivity.
  - rewrite IH, <- app_assoc. reflexivity.
Qed.

Lemma task_of_new_items_absent uid uids files :
  ~ In uid uids ->
  task_of uid (map (fun p : string * LocalFile => new_item (fst p) (snd p)) (combine uids files)) = [].
Proof.
  revert files; induction uids as [|u us IH]; intros [|f fs] Hn; simpl; try reflexivity.
  destruct (String.eqb_spec u uid) as [E|E]; [subst; exfalso; apply Hn; left; reflexivity|].
  apply IH. intros Hi; apply Hn; right; exact Hi.
Qed.

Lemma task_of_new_items uid f uids files :
  NoDup uids -> In (uid, f) (combine uids files) ->
  task_of uid (map (fun p : string * LocalFile => new_item (fst p) (snd p)) (combine uids files))
  = [new_item uid f].
Proof.
  revert files; induction uids as [|u us IH]; intros [|g gs] Hnd Hin; simpl in *; try contradiction.
  inversion Hnd as [|? ? Hnu Hnd']; subst.
  destruct Hin as [Heq|Hin].
  - inversion Heq; subst. rewrite String.eqb_refl.
    rewrite (task_of_new_items_absent uid us gs Hnu). reflexivity.
  - assert (Hu : In uid us) by (eapply in_combine_l; exact Hin).
    destruct (String.eqb_spec u uid) as [E|E]; [subst; contradiction|].
    apply IH; assumption.
Qed.

Lemma progress_updates_status uid evs it :
  status (fold_left apply_one (state_updates (progress_updates uid evs)) it) = status it.
Proof.
  revert it; induction evs as [|[[lc l] t] evs IH]; intros it; simpl; [reflexivity|].
  destruct lc; simpl; rewrite IH; reflexivity.
Qed.

Lemma final_item_split ctx uid f run mv :
  Js.truthy (token ctx) = true ->
  final_item ctx uid f run mv
  = fold_left apply_one
      (state_updates (match terminal run with
                      | None => []
                      | Some term =>
                          match xhr_outcome term with
                          | inl fid => after_upload ctx uid f fid mv
                          | inr msg => catch_block uid f msg
                          end
                      end))
      (fold_left apply_one (state_updates (progress_updates uid (progress_events run)))
                 (new_item uid f)).
Proof.
  intros Ht. unfold final_item, uploadFile. rewrite Ht. simpl.
  rewrite state_updates_app, fold_left_app. reflexivity.
Qed.


(** C8. [startRealUpload] over N files appends exactly N entries, one per
    file (its generated id distinct from the others'), each [uploading] at
    0%; under any interleaving of the [setUploads] calls, the entries of a
    task depend only on the updates about that task, and [uploadFile] for
    task [k] only issues updates about [k], so a failure of task [k] leaves
    every other task as it was; each task whose transport settles ends in
    [completed] or [error]. *)
Theorem enqueue_tasks_independent (uids : list string) (files : list LocalFile)
    (prev : list UploadProgressItem)
    (Hlen : length uids = length files) (Hnd : NoDup uids) :
  length (apply_updates (startRealUpload uids files) prev) = (length prev + length files)%nat
  /\ (forall uid f, In (uid, f) (combine uids files) ->
        task_of uid (apply_updates (startRealUpload uids files) prev)
        = (task_of uid prev ++ [new_item uid f])%list)
  /\ Forall (fun u => status u = uploading /\ progress u = 0%Z)
        (map (fun p : string * LocalFile => new_item (fst p) (snd p)) (combine uids files))
  /\ (forall (ups : list uploads_update) (s : list UploadProgressItem) j,
        task_of j (apply_updates ups s) = apply_updates (filter (about j) ups) (task_of j s))
  /\ (forall ctx k f run mv j, j <> k ->
        filter (about j) (state_updates (uploadFile ctx k f run mv)
                          ++ delayed_updates (uploadFile ctx k f run mv)) = [])
  /\ (forall ctx uid f run mv term, terminal run = Some term ->
        status (final_item ctx uid f run mv) = completed
        \/ status (final_item ctx uid f run mv) = error).
Proof.
  split; [|split; [|split; [|split; [|split]]]].
  - rewrite startRealUpload_appends, length_app, length_map, length_combine, Hlen.
    rewrite Nat.min_id. reflexivity.
  - intros uid f Hin. rewrite startRealUpload_appends. unfold task_of at 1.
    rewrite filter_app. f_equal. apply task_of_new_items; assumption.
  - rewrite Forall_map. apply Forall_forall. intros [u f] _. split; reflexivity.
  - intros ups s0 j. apply task_of_apply_updates.
  - intros ctx k f run mv j Hne.
    pose proof (uploadFile_targets ctx k f run mv) as Ht.
    induction Ht as [|up l Hup Hl IH]; [reflexivity|]. simpl.
    unfold about at 1. rewrite Hup. destruct (String.eqb_spec k j); [congruence|]. exact IH.
  - intros ctx uid f run mv term Hterm.
    destruct (Js.truthy (token ctx)) eqn:Htok.
    + rewrite (final_item_split ctx uid f run mv Htok), Hterm.
      destruct (xhr_outcome term) as [fid|msg]; simpl; [|right; reflexivity].
      unfold after_upload. destruct (negb _ && Js.truthy fid); simpl;
        [destruct mv as [[|] ? ?|?]; simpl|];
        destruct (has_onUploadComplete ctx); simpl; auto.
    + right. unfold final_item, uploadFile. rewrite Htok. reflexivity.
Qed.

(** C10. Without an auth token, [uploadFile] marks the task [error] at once
    and shows a toast: no upload POST and no move request. *)
Theorem upload_without_token_no_request ctx uid f run mv
    (Hnotoken : Js.truthy (token ctx) = false) :
  uploadFile ctx uid f run mv
  = [SetUploads (SetError uid); AddToast toast_error "Authentication required for file upload"]
  /\ filter is_request (uploadFile ctx uid f run mv) = []
  /\ final_item ctx uid f run mv = with_status (new_item uid f) error.
Proof.
  unfold final_item, uploadFile. rewrite Hnotoken. simpl. auto.
Qed.

Lemma upload_without_token_no_request_witness :
  Js.truthy (token {| token := None; folderId := Some "f1"; tags := "";
                      has_onUploadComplete := true; env_rest_base := None |}) = false
  /\ filter is_request
       (uploadFile {| token := None; folderId := Some "f1"; tags := "";
                      has_onUploadComplete := true; env_rest_base := None |}
          "upload-1" {| file_name := "a.txt"; file_size := 10 |}
          {| progress_events := []; terminal := Some XhrError |} (MoveRejected "x")) = [].
Proof.
  split; [reflexivity|].
  apply (upload_without_token_no_request
           {| token := None; folderId := Some "f1"; tags := "";
              has_onUploadComplete := true; env_rest_base := None |}
           "upload-1" {| file_name := "a.txt"; file_size := 10 |}
           {| progress_events := []; terminal := Some XhrError |} (MoveRejected "x")).
  reflexivity.
Defined.

Lemma enqueue_tasks_independent_witness :
  length ["upload-1"; "upload-2"; "upload-3"]
    = length [{| file_name := "a"; file_size := 1 |}; {| file_name := "b"; file_size := 2 |};
              {| file_name := "c"; file_size := 3 |}]
  /\ NoDup ["upload-1"; "upload-2"; "upload-3"]
  /\ length (apply_updates (startRealUpload ["upload-1"; "upload-2"; "upload-3"]
               [{| file_name := "a"; file_size := 1 |}; {| file_name := "b"; file_size := 2 |};
                {| file_name := "c"; file_size := 3 |}]) []) = 3%nat.
Proof.
  assert (Hnd : NoDup ["upload-1"; "upload-2"; "upload-3"]).
  { repeat constructor; simpl; intuition discriminate. }
  split; [reflexivity|]. split; [exact Hnd|].
  apply (enqueue_tasks_independent ["upload-1"; "upload-2"; "upload-3"]
           [{| file_name := "a"; file_size := 1 |}; {| file_name := "b"; file_size := 2 |};
            {| file_name := "c"; file_size := 3 |}] [] eq_refl Hnd).
Defined.

(** The context and answers of the relocation counterexample. *)
Definition ctx_in_folder : upload_ctx :=
  {| token := Some "tok"; folderId := Some "folder-7"; tags := "";
     has_onUploadComplete := true; env_rest_base := None |}.
Definition run_created : xhr_run :=
  {| progress_events := [(true, 50%Z, 100%Z); (true, 100%Z, 100%Z)];
     terminal := Some (XhrLoad 201 "Created" (Json (Some "file-9") None)) |}.
Definition move_forbidden : move_result := MoveResponse false "Forbidden" NotJson.
Definition file_a : LocalFile := {| file_name := "a.txt"; file_size := 100 |}.




(** The timeout counterexample: the transport times out after 10%. *)
Definition run_timeout : xhr_run :=
  {| progress_events := [(true, 10%Z, 100%Z)]; terminal := Some XhrTimeout |}.

(** C7 (counterexample). The upload request carries a 60 s client-side
    timeout, and when it fires the task fails. *)
Lemma upload_request_times_out :
  head (uploadFile ctx_in_folder "upload-2" file_a run_timeout move_forbidden)
    = Some (XhrPost "http://localhost:8080/api/v1/files" "Bearer tok" 60000 None)
  /\ status (final_item ctx_in_folder "upload-2" file_a run_timeout move_forbidden) = error.
Proof. split; reflexivity. Qed.

(** C7 (as the code does it). With a token, the upload [XMLHttpRequest] is
    sent with [xhr.timeout = 60000] and nothing else can stop it: while the
    transport has reported no terminal event the task stays [uploading];
    when the timeout fires the task goes to [error] with the toast
    "Upload timeout". *)
Theorem upload_timeout_is_wired ctx uid f run mv
    (Htok : Js.truthy (token ctx) = true) :
  xhr_timeout = 60000%Z
  /\ (exists url auth tg, head (uploadFile ctx uid f run mv) = Some (XhrPost url auth xhr_timeout tg))
  /\ (terminal run = None -> status (final_item ctx uid f run mv) = uploading)
  /\ (terminal run = Some XhrTimeout ->
        status (final_item ctx uid f run mv) = error
        /\ In (AddToast toast_error ("Failed to upload " ++ Js.quote ++ file_name f ++ Js.quote ++ ": Upload timeout"))
              (uploadFile ctx uid f run mv)).
Proof.
  split; [reflexivity|]. split; [|split].
  - do 3 eexists. unfold uploadFile. rewrite Htok. reflexivity.
  - intros Hn. rewrite (final_item_split ctx uid f run mv Htok), Hn. simpl.
    apply progress_updates_status.
  - intros Ht. split.
    + rewrite (final_item_split ctx uid f run mv Htok), Ht. reflexivity.
    + unfold uploadFile. rewrite Htok, Ht. simpl. right. apply in_or_app. right.
      simpl. right. left. reflexivity.
Qed.

Lemma upload_timeout_is_wired_witness :
  Js.truthy (token ctx_in_folder) = true
  /\ status (final_item ctx_in_folder "upload-2" file_a run_timeout move_forbidden) = error.
Proof.
  split; [reflexivity|].
  apply (upload_timeout_is_wired ctx_in_folder "upload-2" file_a run_timeout move_forbidden
           eq_refl); reflexivity.
Defined.

(** The successive [progress] values of one entry under field updates. *)
Fixpoint progress_trace (it : UploadProgressItem) (ups : list uploads_update) : list Z :=
  progress it :: match ups with
                 | [] => []
                 | up :: r => progress_trace (apply_one it up) r
                 end.

Definition loaded_of (ev : bool * Z * Z) : Z := let '(_, l, _) := ev in l.

Lemma percent_mono T l1 l2 : (0 < T)%Z -> (l1 <= l2)%Z -> (percent l1 T <= percent l2 T)%Z.
Proof.
  intros HT Hl. unfold percent. apply F64Proofs.js_round_mono, F64Proofs.round64_mono.
  apply Qmult_le_compat_r; [|discriminate]. apply F64Proofs.round64_mono.
  unfold Qdiv. apply Qmult_le_compat_r; [rewrite <- Zle_Qle; exact Hl|].
  apply Qinv_le_0_compat. change (inject_Z 0 <= inject_Z T)%Q. rewrite <- Zle_Qle. lia.
Qed.

Lemma percent_bounds T l : (0 < T)%Z -> (0 <= l <= T)%Z -> (0 <= percent l T <= 100)%Z.
Proof.
  intros HT Hl.
  assert (HT' : (0 < inject_Z T)%Q)
    by (change (inject_Z 0 < inject_Z T)%Q; rewrite <- Zlt_Qlt; exact HT).
  assert (Q0 : (0 <= inject_Z l / inject_Z T)%Q).
  { apply Qle_shift_div_l; [exact HT'|]. rewrite Qmult_0_l.
    change (inject_Z 0 <= inject_Z l)%Q. rewrite <- Zle_Qle. lia. }
  assert (Q1 : (inject_Z l / inject_Z T <= 1)%Q).
  { apply Qle_shift_div_r; [exact HT'|]. rewrite Qmult_1_l. rewrite <- Zle_Qle. lia. }
  apply F64Proofs.round64_mono in Q0. apply F64Proofs.round64_mono in Q1.
  rewrite F64Proofs.round64_0 in Q0. rewrite F64Proofs.round64_1 in Q1.
  set (r := F64.round64 (inject_Z l / inject_Z T)) in *.
  assert (R0 : (0 <= r * 100)%Q) by lra. assert (R1 : (r * 100 <= 100)%Q) by lra.
  apply F64Proofs.round64_mono in R0. apply F64Proofs.round64_mono in R1.
  rewrite F64Proofs.round64_0 in R0. rewrite F64Proofs.round64_100 in R1.
  apply F64Proofs.js_round_mono in R0. apply F64Proofs.js_round_mono in R1. unfold percent. fold r.
  change (F64.js_round 0) with 0%Z in R0. change (F64.js_round 100) with 100%Z in R1. lia.
Qed.

(** Every step keeps the value in [0, 100] and does not decrease it. *)
Fixpoint steps_ok (it : UploadProgressItem) (ups : list uploads_update) : Prop :=
  (0 <= progress it <= 100)%Z /\
  match ups with
  | [] => True
  | up :: r => (progress it <= progress (apply_one it up))%Z /\ steps_ok (apply_one it up) r
  end.

Lemma steps_ok_sorted it ups :
  steps_ok it ups -> Sorted Z.le (progress_trace it ups) /\
                     Forall (fun p => 0 <= p <= 100)%Z (progress_trace it ups).
Proof.
  revert it; induction ups as [|up ups IH]; intros it [Hb H]; simpl.
  - split; repeat constructor; lia.
  - destruct H as [Hle Hr]. destruct (IH _ Hr) as [Hs Hf]. split.
    + constructor; [exact Hs|]. destruct ups; simpl; constructor; exact Hle.
    + constructor; [exact Hb|exact Hf].
Qed.

Lemma steps_ok_last it ups :
  steps_ok it ups -> (0 <= progress (fold_left apply_one ups it) <= 100)%Z.
Proof.
  revert it; induction ups as [|up ups IH]; intros it [Hb H]; simpl; [exact Hb|].
  apply IH, H.
Qed.

Lemma steps_ok_app it a b :
  steps_ok it a -> steps_ok (fold_left apply_one a it) b -> steps_ok it (a ++ b).
Proof.
  revert it; induction a as [|up a IH]; intros it Ha Hb; simpl in *; [exact Hb|].
  destruct Ha as [H0 [H1 H2]]. split; [exact H0|]. split; [exact H1|]. apply IH; assumption.
Qed.

Lemma progress_steps_ok uid T evs it :
  (0 < T)%Z ->
  Forall (fun ev : bool * Z * Z => let '(_, l, t) := ev in t = T /\ (0 <= l <= T)%Z) evs ->
  StronglySorted Z.le (map loaded_of evs) ->
  (0 <= progress it <= 100)%Z ->
  Forall (fun ev => progress it <= percent (loaded_of ev) T)%Z evs ->
  steps_ok it (state_updates (progress_updates uid evs)).
Proof.
  intros HT. revert it; induction evs as [|[[lc l] t] evs IH]; intros it Hev Hs Hb Hp;
    simpl; [split; auto|].
  inversion Hev as [|? ? Hx Hev']; subst. simpl in Hx. destruct Hx as [Ht Hl]; subst t.
  inversion Hs as [|? ? Hs' Hhd]; subst.
  inversion Hp as [|? ? Hp0 Hp']; subst. simpl in Hp0.
  destruct lc; simpl.
  - split; [exact Hb|]. split; [exact Hp0|].
    apply IH; auto.
    + apply percent_bounds; assumption.
    + simpl. rewrite Forall_forall in *. intros ev Hin. apply percent_mono; [exact HT|].
      apply Hhd. apply in_map. exact Hin.
  - apply IH; assumption.
Qed.

Lemma tail_steps_ok it ups :
  (0 <= progress it <= 100)%Z ->
  ups = [] \/ ups = [SetError (id it)] \/ ups = [SetCompleted (id it)]
  \/ ups = [SetCompleted (id it); SetError (id it)] ->
  steps_ok it ups.
Proof.
  intros Hb [E|[E|[E|E]]]; subst ups; simpl; repeat split; lia.
Qed.

Lemma fold_apply_one_id ups it : id (fold_left apply_one ups it) = id it.
Proof.
  revert it; induction ups as [|up ups IH]; intros it; simpl; [reflexivity|].
  rewrite IH. apply apply_one_id.
Qed.

Lemma uploadFile_shape ctx uid f run mv :
  Js.truthy (token ctx) = true ->
  exists tl, state_updates (uploadFile ctx uid f run mv)
             = (state_updates (progress_updates uid (progress_events run)) ++ tl)%list
          /\ (tl = [] \/ tl = [SetError uid] \/ tl = [SetCompleted uid]
              \/ tl = [SetCompleted uid; SetError uid]).
Proof.
  intros Htok. unfold uploadFile. rewrite Htok. simpl. rewrite state_updates_app.
  eexists; split; [reflexivity|].
  destruct (terminal run) as [term|]; simpl; [|auto].
  destruct (xhr_outcome term) as [fid|msg]; simpl; [|auto].
  unfold after_upload. destruct (negb _ && Js.truthy fid); simpl;
    [destruct mv as [[|] ? ?|?]; simpl|];
    destruct (has_onUploadComplete ctx); simpl; auto.
Qed.

(** C9 (as the code does it). Each progress value written is
    [Math.round((loaded / total) * 100)] of a transport event, computed in
    double precision ([percent], [progress_updates]). When the transport
    reports a fixed positive total and non-decreasing loaded counts within
    it, the successive progress values of the task (from the initial 0) are
    non-decreasing and lie in [0, 100], and a task marked [completed] has
    progress exactly 100. *)
Theorem upload_progress_monotone ctx uid f run mv (T : Z)
    (HT : (0 < T)%Z)
    (Hev : Forall (fun ev : bool * Z * Z => let '(_, l, t) := ev in t = T /\ (0 <= l <= T)%Z)
             (progress_events run))
    (Hsorted : Sorted Z.le (map loaded_of (progress_events run))) :
  Sorted Z.le (progress_trace (new_item uid f) (state_updates (uploadFile ctx uid f run mv)))
  /\ Forall (fun p => 0 <= p <= 100)%Z
       (progress_trace (new_item uid f) (state_updates (uploadFile ctx uid f run mv)))
  /\ (status (final_item ctx uid f run mv) = completed ->
      progress (final_item ctx uid f run mv) = 100%Z).
Proof.
  destruct (Js.truthy (token ctx)) eqn:Htok.
  2:{ unfold final_item, uploadFile. rewrite Htok. simpl.
      split; [repeat constructor; simpl; lia|]. split; [repeat constructor; simpl; lia|].
      discriminate. }
  destruct (uploadFile_shape ctx uid f run mv Htok) as [tl [Hs Htl]].
  set (P := state_updates (progress_updates uid (progress_events run))) in *.
  assert (HP : steps_ok (new_item uid f) P).
  { apply progress_steps_ok with (T := T); auto.
    - apply Sorted_StronglySorted; [exact Z.le_trans|exact Hsorted].
    - simpl; lia.
    - rewrite Forall_forall in *. intros [[lc l] t] Hin. simpl.
      specialize (Hev _ Hin). simpl in Hev. apply percent_bounds; lia. }
  assert (Hmid := steps_ok_last _ _ HP).
  assert (Hid : id (fold_left apply_one P (new_item uid f)) = uid)
    by (rewrite fold_apply_one_id; reflexivity).
  assert (Hst : status (fold_left apply_one P (new_item uid f)) = uploading)
    by (apply progress_updates_status).
  assert (Hok : steps_ok (new_item uid f) (state_updates (uploadFile ctx uid f run mv))).
  { rewrite Hs. apply steps_ok_app; [exact HP|]. apply tail_steps_ok; [exact Hmid|].
    rewrite Hid. exact Htl. }
  destruct (steps_ok_sorted _ _ Hok) as [H1 H2].
  split; [exact H1|]. split; [exact H2|].
  unfold final_item. rewrite Hs, fold_left_app.
  destruct Htl as [E|[E|[E|E]]]; subst tl; simpl; try rewrite Hst; try discriminate; auto.
Qed.

Lemma upload_progress_monotone_witness :
  (0 < 100)%Z
  /\ Forall (fun ev : bool * Z * Z => let '(_, l, t) := ev in t = 100%Z /\ (0 <= l <= 100)%Z)
       (progress_events run_created)
  /\ Sorted Z.le (map loaded_of (progress_events run_created))
  /\ Sorted Z.le (progress_trace (new_item "upload-1" file_a)
                    (state_updates (uploadFile ctx_in_folder "upload-1" file_a run_created
                                      (MoveResponse true "OK" NotJson)))).
Proof.
  assert (Hev : Forall (fun ev : bool * Z * Z => let '(_, l, t) := ev in t = 100%Z /\ (0 <= l <= 100)%Z)
                  (progress_events run_created)).
  { simpl. repeat constructor; lia. }
  assert (Hs : Sorted Z.le (map loaded_of (progress_events run_created))).
  { simpl. repeat constructor; simpl; lia. }
  split; [lia|]. split; [exact Hev|]. split; [exact Hs|].
  apply (upload_progress_monotone ctx_in_folder "upload-1" file_a run_created
           (MoveResponse true "OK" NotJson) 100%Z); [lia|exact Hev|exact Hs].
Defined.

(** C9 (counterexample). The progress value is not [round(100 * loaded /
    total)]: for 23 bytes of 40, [23 / 40] is rounded to the double just
    below 0.575, its product by 100 to the double just below 57.5, and
    [Math.round] gives 57, where the exact value 57.5 rounds to 58. *)
Lemma progress_not_exact_rounding :
  progress_updates "upload-1" [(true, 23%Z, 40%Z)] = [SetUploads (SetProgress "upload-1" 57%Z)]
  /\ ((200 * 23 + 40) / (2 * 40) = 58)%Z.
Proof. vm_compute. split; reflexivity. Qed.

End UploadProofs.

(** ** Preview resolver: properties *)
Module PreviewProofs.
Import Preview.

Definition opt_list (o : option nat) : list nat :=
  match o with Some u => [u] | None => [] end.

(** Object URLs: created once each, revoked or still current; controllers:
    a pending race is aborted or belongs to the current controller, and a
    live pending race means no current URL. *)
Definition Inv_core (s : state) : Prop :=
  NoDup (created s)
  /\ Permutation (created s) (revoked s ++ opt_list (currentBlobUrl s))
  /\ (forall u, In u (created s) -> u < next_url s)
  /\ (forall c, In c (pending s) -> In c (aborted s) \/ abortController s = Some c)
  /\ (forall c, In c (pending s) -> ~ In c (aborted s) -> currentBlobUrl s = None).

Definition Inv (s : state) : Prop :=
  Inv_core s
  /\ (mounted_props s = None -> currentBlobUrl s = None /\ pending s = [])
  /\ (unmounted s = true -> currentBlobUrl s = None /\ abortController s = None
                            /\ mounted_props s <> None).

Lemma inv_set_view s a b c d e f :
  Inv_core s -> Inv_core (set_view s a b c d e f).
Proof. intros H. exact H. Qed.

Lemma inv_revoke s :
  Inv_core s -> Inv_core (revoke_current s) /\ currentBlobUrl (revoke_current s) = None.
Proof.
  unfold revoke_current. destruct (currentBlobUrl s) as [u|] eqn:E; intros H; [|split; [exact H|exact E]].
  destruct H as (H1 & H2 & H3 & H4 & H5). simpl.
  repeat split; auto. rewrite app_nil_r. rewrite E in H2. exact H2.
Qed.

Lemma inv_abort s :
  Inv_core s -> Inv_core (abort_current s) /\ abortController (abort_current s) = None
                /\ currentBlobUrl (abort_current s) = currentBlobUrl s
                /\ revoked (abort_current s) = revoked s.
Proof.
  unfold abort_current. destruct (abortController s) as [c0|] eqn:E; intros H.
  - destruct H as (H1 & H2 & H3 & H4 & H5). simpl. repeat split; auto.
    + intros c Hc. left. apply in_or_app. destruct (H4 c Hc) as [Ha|Ha]; [left; exact Ha|].
      right. rewrite E in Ha. inversion Ha. left. reflexivity.
    + intros c Hc Hn. apply (H5 c Hc). intros Ha. apply Hn. apply in_or_app. left. exact Ha.
  - split; [exact H|]. split; [exact E|]. split; reflexivity.
Qed.

Lemma inv_start_controller s :
  Inv_core s -> abortController s = None ->
  Inv_core (start_controller s) /\ abortController (start_controller s) = Some (next_ctl s).
Proof.
  intros (H1 & H2 & H3 & H4 & H5) Hn. unfold start_controller. simpl.
  repeat split; auto.
  intros c Hc. destruct (H4 c Hc) as [Ha|Ha]; [left; exact Ha|]. congruence.
Qed.

Lemma inv_start_fetch s url a c :
  Inv_core s -> abortController s = Some c -> currentBlobUrl s = None ->
  Inv_core (start_fetch s url a c).
Proof.
  intros (H1 & H2 & H3 & H4 & H5) Ha Hb. unfold start_fetch. simpl.
  repeat split; auto.
  - intros c' Hc. apply in_app_or in Hc as [Hc|Hc]; [apply H4; exact Hc|].
    right. destruct Hc as [<-|[]]. exact Ha.
Qed.

Lemma inv_drop s c : Inv_core s -> Inv_core (drop_pending s c).
Proof.
  intros (H1 & H2 & H3 & H4 & H5). unfold drop_pending. simpl.
  repeat split; auto.
  - intros c' Hc. apply in_remove in Hc as [Hc _]. apply H4; exact Hc.
  - intros c' Hc. apply in_remove in Hc as [Hc _]. apply H5; exact Hc.
Qed.

Lemma inv_create s :
  Inv_core s -> currentBlobUrl s = None ->
  (forall c, In c (pending s) -> In c (aborted s)) ->
  Inv_core (create_url s).
Proof.
  intros (H1 & H2 & H3 & H4 & H5) Hb Hp. unfold create_url. simpl.
  rewrite Hb in H2. simpl in H2. rewrite app_nil_r in H2.
  repeat split.
  - apply Permutation_NoDup with (next_url s :: created s); [apply Permutation_cons_append|].
    constructor; [|exact H1]. intros Hin. specialize (H3 _ Hin). lia.
  - apply Permutation_app_tail. exact H2.
  - intros u Hu. cbn in *. apply in_app_or in Hu as [Hu|[Hu|[]]]; [specialize (H3 _ Hu); lia|lia].
  - intros c Hc. left. apply Hp. exact Hc.
  - intros c Hc Hn. exfalso. apply Hn, Hp, Hc.
Qed.

Lemma revoke_fields s :
  abortController (revoke_current s) = abortController s
  /\ pending (revoke_current s) = pending s
  /\ aborted (revoke_current s) = aborted s
  /\ mounted_props (revoke_current s) = mounted_props s
  /\ unmounted (revoke_current s) = unmounted s
  /\ next_ctl (revoke_current s) = next_ctl s.
Proof. unfold revoke_current; destruct (currentBlobUrl s); repeat split. Qed.

Lemma revoke_none s : currentBlobUrl s = None -> revoke_current s = s.
Proof. unfold revoke_current; intros ->; reflexivity. Qed.

Lemma cleanup_revoked s u :
  currentBlobUrl s = Some u -> revoked (cleanup s) = (revoked s ++ [u])%list.
Proof.
  intros Hb. unfold cleanup, revoke_current, abort_current.
  destruct (abortController s); cbn; rewrite Hb; reflexivity.
Qed.

Lemma inv_cleanup s :
  Inv_core s ->
  Inv_core (cleanup s) /\ currentBlobUrl (cleanup s) = None /\ abortController (cleanup s) = None.
Proof.
  intros H. unfold cleanup.
  destruct (inv_abort s H) as (Ha & Hc & _).
  destruct (inv_revoke _ Ha) as [Hr Hb].
  destruct (revoke_fields (abort_current s)) as (E & _).
  split; [exact Hr|]. split; [exact Hb|]. rewrite E. exact Hc.
Qed.

(** What [loadFilePreview] preserves when no object URL is current. *)
Definition quiet (r : list nat) (s : state) : Prop :=
  Inv_core s /\ currentBlobUrl s = None /\ revoked s = r.

Lemma inv_load env p s :
  Inv_core s -> currentBlobUrl s = None ->
  quiet (revoked s) (loadFilePreview env p s).
Proof.
  intros H Hb.
  assert (Hreset : quiet (revoked s)
            (set_view (abort_current (revoke_current s)) false false None None None None)).
  { rewrite (revoke_none s Hb). destruct (inv_abort s H) as (Ha & _ & Hc & Hr).
    split; [exact Ha|]. split; [cbn; rewrite Hc; exact Hb|cbn; exact Hr]. }
  unfold loadFilePreview.
  destruct (file p) as [f|]; [|exact Hreset].
  destruct (negb (isOpen p)); [exact Hreset|].
  destruct (guard_hit f s); [split; [exact H|split; [exact Hb|reflexivity]]|].
  destruct (inv_abort s H) as (Ha & Hc & Hbc & Hr).
  destruct (inv_start_controller _ Ha Hc) as [Hs Hsc].
  set (s2 := set_view (start_controller (abort_current s)) true true
               (previewUrl (start_controller (abort_current s)))
               (previewUrlRef (start_controller (abort_current s))) None (Some (fid f))).
  assert (Q2 : quiet (revoked s) s2).
  { split; [apply inv_set_view; exact Hs|]. split; cbn; [rewrite Hbc; exact Hb|exact Hr]. }
  assert (Hfail : forall m, quiet (revoked s) (fail s2 m)).
  { intros m. destruct Q2 as (Q & Qb & Qr). split; [apply inv_set_view; exact Q|split; assumption]. }
  destruct (_ || _ || _ || _).
  2:{ destruct Q2 as (Q & Qb & Qr). split; [apply inv_set_view; exact Q|split; assumption]. }
  destruct (_ && _); [apply Hfail|].
  destruct (_ && _); [apply Hfail|].
  destruct (_ && _); [apply Hfail|].
  destruct (_ && _); [apply Hfail|].
  destruct Q2 as (Q & Qb & Qr).
  split; [apply inv_start_fetch; [exact Q|exact Hsc|exact Qb]|].
  split; assumption.
Qed.

Lemma existsb_nat_In c l : existsb (Nat.eqb c) l = true <-> In c l.
Proof.
  rewrite existsb_exists. split.
  - intros [x [Hx E]]. apply Nat.eqb_eq in E. subst. exact Hx.
  - intros Hc. exists c. split; [exact Hc|apply Nat.eqb_refl].
Qed.

Lemma inv_settle c o s :
  Inv s -> Inv (settle c o s) /\ revoked (settle c o s) = revoked s.
Proof.
  intros [H [H6 H7]]. unfold settle.
  destruct (existsb (Nat.eqb c) (pending s)) eqn:Ep; [|split; [split; auto|reflexivity]].
  apply existsb_nat_In in Ep. simpl.
  assert (Hd : Inv (drop_pending s c)).
  { split; [apply inv_drop; exact H|]. cbn. split.
    - intros Hm. destruct (H6 Hm) as [Hb Hp]. rewrite Hp. split; [exact Hb|reflexivity].
    - exact H7. }
  destruct (existsb (Nat.eqb c) (aborted s)) eqn:Ea; [split; [exact Hd|reflexivity]|].
  assert (Hna : ~ In c (aborted s)).
  { intros Hin. apply existsb_nat_In in Hin. congruence. }
  destruct H as (H1 & H2 & H3 & H4 & H5).
  assert (Hb : currentBlobUrl s = None) by (apply (H5 c Ep Hna)).
  assert (Hac : abortController s = Some c) by (destruct (H4 c Ep); [contradiction|assumption]).
  assert (Hm : mounted_props s <> None).
  { intros Hm. destruct (H6 Hm) as [_ Hp]. rewrite Hp in Ep. destruct Ep. }
  assert (Hu : unmounted s = false).
  { destruct (unmounted s) eqn:E; [|reflexivity]. destruct (H7 eq_refl) as (_ & Hn & _). congruence. }
  destruct Hd as [Hd _].
  assert (Hfail : forall m, Inv (fail (drop_pending s c) m) /\ revoked (fail (drop_pending s c) m) = revoked s).
  { intros m. split; [|reflexivity]. split; [apply inv_set_view; exact Hd|]. cbn.
    split; [intros E; contradiction|intros E; congruence]. }
  destruct o as [[|] st stt|m]; [|apply Hfail|apply Hfail].
  rewrite (revoke_none (drop_pending s c)) by (cbn; exact Hb).
  split; [|reflexivity].
  split; [apply inv_set_view, inv_create; [exact Hd|cbn; exact Hb|]|].
  - intros c' Hc'. cbn in *. apply in_remove in Hc' as [Hc' Hne].
    destruct (H4 c' Hc') as [Ha|Ha]; [exact Ha|congruence].
  - cbn. split; [intros E; contradiction|intros E; congruence].
Qed.

Lemma inv_init : Inv init.
Proof.
  split; [|split].
  - repeat split; cbn; try constructor; intros; contradiction.
  - intros _. split; reflexivity.
  - discriminate.
Qed.

Lemma inv_step env s e :
  Inv s -> Inv (step env s e)
           /\ (revoked (step env s e) <> revoked s -> e = Unmount \/ exists p, e = Rerun p).
Proof.
  intros HI. destruct e as [p|p|c o|]; simpl.
  - destruct (mounted_props s) eqn:Em; [split; [exact HI|tauto]|].
    destruct (unmounted s); [split; [exact HI|tauto]|].
    destruct HI as [H [H6 H7]]. destruct (H6 Em) as [Hb Hp].
    destruct (inv_load env p s H Hb) as (Hl & Hlb & Hlr).
    split.
    + split; [exact Hl|]. cbn. split; [discriminate|]. discriminate.
    + cbn. rewrite Hlr. tauto.
  - destruct (mounted_props s) eqn:Em; [|split; [exact HI|tauto]].
    destruct (unmounted s); [split; [exact HI|tauto]|].
    destruct HI as [H [H6 H7]]. destruct (inv_cleanup s H) as (Hc & Hcb & _).
    destruct (inv_load env p _ Hc Hcb) as (Hl & _ & _).
    split; [|intros _; right; exists p; reflexivity].
    split; [exact Hl|]. cbn. split; [discriminate|]. discriminate.
  - destruct (inv_settle c o s HI) as [H1 H2]. split; [exact H1|]. intros Hn; contradiction.
  - destruct (mounted_props s) eqn:Em; [|split; [exact HI|tauto]].
    destruct (unmounted s); [split; [exact HI|tauto]|].
    destruct HI as [H [H6 H7]]. destruct (inv_cleanup s H) as (Hc & Hcb & Hca).
    split; [|intros _; left; reflexivity].
    split; [exact Hc|]. cbn. split; [discriminate|]. intros _. split; [exact Hcb|].
    split; [exact Hca|discriminate].
Qed.

Lemma inv_run env es s : Inv s -> Inv (run env es s).
Proof.
  revert s; induction es as [|e es IH]; intros s H; simpl; [exact H|].
  apply IH. apply inv_step. exact H.
Qed.

Lemma load_ready env p f s :
  file p = Some f -> fetch_ready p f = true -> guard_hit f s = false ->
  loadFilePreview env p s
  = start_fetch
      (set_view (start_controller (abort_current s)) true true
         (previewUrl (start_controller (abort_current s)))
         (previewUrlRef (start_controller (abort_current s))) None (Some (fid f)))
      (downloadUrl env f) (authHeader p f) (next_ctl (abort_current s)).
Proof.
  intros Hf Hr Hg. unfold fetch_ready in Hr.
  repeat (apply andb_prop in Hr as [Hr ?]).
  unfold loadFilePreview. rewrite Hf. rewrite Hr. simpl. rewrite Hg.
  repeat match goal with
         | H : ?b = true |- context [?b] => rewrite H
         | H : negb ?b = true |- _ => apply negb_true_iff in H
         | H : ?b = false |- context [?b] => rewrite H
         end.
  destruct (Js.truthy (token p)), (isPublic p); simpl in *; try discriminate; reflexivity.
Qed.


(** A PDF of 10 MB opened with a token, then the token changes. *)
Definition pdf_file : FileItem :=
  {| fid := "file-1"; mime_type := "application/pdf"; size_bytes := 10000000;
     share_link := None |}.
Definition open_with (t : string) : props :=
  {| file := Some pdf_file; isOpen := true; token := Some t; isPublic := false |}.





Definition xml_file : FileItem :=
  {| fid := "file-3"; mime_type := "application/xml"; size_bytes := 1000; share_link := None |}.

(** C3 (the code at the failing input). An [application/xml] file of 1000
    bytes, opened with a token: [loadFilePreview] does not classify it as
    text, issues no fetch and leaves no preview URL and no error. The
    rendering code of the same component counts [application/xml] as text,
    so for this text file without a preview URL the modal shows its
    "Preview failed to load" panel ("Text file could not be loaded."). *)
Theorem xml_preview_not_fetched :
  let s := run None [Mount {| file := Some xml_file; isOpen := true; token := Some "t";
                              isPublic := false |}] init in
  fetches s = [] /\ previewUrl s = None /\ error s = None /\ loading s = false
  /\ isTextFile xml_file = false /\ isText_render xml_file = true.
Proof. vm_compute. repeat split. Qed.

Lemma load_fetches_shape env p s :
  loadFilePreview env p s = s
  \/ fetches (loadFilePreview env p s) = fetches s
  \/ (exists f, file p = Some f /\ fetch_ready p f = true /\ guard_hit f s = false
      /\ fetches (loadFilePreview env p s) = (fetches s ++ [(downloadUrl env f, authHeader p f)])%list
      /\ currentFileId (loadFilePreview env p s) = Some (fid f)
      /\ loadingRef (loadFilePreview env p s) = true).
Proof.
  destruct (file p) as [f|] eqn:Hf.
  2:{ right; left. unfold loadFilePreview. rewrite Hf. cbn.
      unfold abort_current, revoke_current;
      destruct (currentBlobUrl s), (abortController s); reflexivity. }
  destruct (guard_hit f s) eqn:Hg.
  { unfold loadFilePreview. rewrite Hf. destruct (isOpen p) eqn:Ho; simpl.
    - rewrite Hg. left. reflexivity.
    - right; left. unfold abort_current, revoke_current.
      destruct (currentBlobUrl s), (abortController s); reflexivity. }
  destruct (fetch_ready p f) eqn:Hr.
  { right; right. exists f. repeat split; auto; rewrite (load_ready env p f s Hf Hr Hg); cbn;
      unfold abort_current; destruct (abortController s); reflexivity. }
  right; left. unfold loadFilePreview. rewrite Hf, Hg. revert Hr. unfold fetch_ready, fail.
  destruct (isOpen p), (Js.truthy (token p)), (isPublic p), (isImageFile f), (isTextFile f),
    (isPDFFile f), (isVideoFile f), (500000 <? size_bytes f)%Z, (100000000 <? size_bytes f)%Z,
    (50000000 <? size_bytes f)%Z;
    simpl; intros Hr; try discriminate;
    unfold abort_current, revoke_current; destruct (currentBlobUrl s), (abortController s);
    reflexivity.
Qed.

Lemma guard_noop env p f s :
  file p = Some f -> isOpen p = true -> guard_hit f s = true -> loadFilePreview env p s = s.
Proof. intros Hf Ho Hg. unfold loadFilePreview. rewrite Hf, Ho. simpl. rewrite Hg. reflexivity. Qed.

(** Fetch answers that can no longer change the view: every awaited race
    belongs to an aborted controller. *)
Definition all_aborted (s : state) : Prop :=
  forall c, In c (pending s) -> In c (aborted s).

Lemma settle_all_aborted c o s :
  all_aborted s ->
  all_aborted (settle c o s)
  /\ fetches (settle c o s) = fetches s /\ loading (settle c o s) = loading s
  /\ previewUrl (settle c o s) = previewUrl s /\ error (settle c o s) = error s.
Proof.
  intros H. unfold settle.
  destruct (existsb (Nat.eqb c) (pending s)) eqn:Ep; [|repeat split; exact H].
  apply existsb_nat_In in Ep. cbn [negb].
  assert (Ea : existsb (Nat.eqb c) (aborted (drop_pending s c)) = true)
    by (apply existsb_nat_In; exact (H c Ep)).
  rewrite Ea. repeat split.
  intros c' Hc'. cbn in *. apply in_remove in Hc' as [Hc' _]. exact (H c' Hc').
Qed.

Lemma settles_all_aborted env l s :
  all_aborted s ->
  let s' := run env (map (fun co => Settle (fst co) (snd co)) l) s in
  fetches s' = fetches s /\ loading s' = loading s /\ previewUrl s' = previewUrl s
  /\ error s' = error s.
Proof.
  revert s; induction l as [|[c o] l IH]; intros s H; [repeat split|].
  cbn [map fst snd run fold_left step]. fold (run env (map (fun co => Settle (fst co) (snd co)) l)
                                                (settle c o s)).
  destruct (settle_all_aborted c o s H) as (H1 & E1 & E2 & E3 & E4).
  destruct (IH _ H1) as (F1 & F2 & F3 & F4).
  rewrite F1, F2, F3, F4. auto.
Qed.

Lemma cleanup_all_aborted s :
  Inv_core s -> all_aborted (cleanup s).
Proof.
  intros (_ & _ & _ & H4 & _) c Hc.
  assert (Hp : pending (cleanup s) = pending s /\
               aborted (cleanup s) = (aborted s ++ match abortController s with
                                                  | Some c0 => [c0] | None => [] end)%list).
  { unfold cleanup, revoke_current, abort_current.
    destruct (abortController s), (currentBlobUrl _); cbn; rewrite ?app_nil_r; split; reflexivity. }
  destruct Hp as [Hp Ha]. rewrite Hp in Hc. rewrite Ha. apply in_or_app.
  destruct (H4 c Hc) as [Hin|Hin]; [left; exact Hin|right; rewrite Hin; left; reflexivity].
Qed.

(** C4 (the code, for every reachable state). The effect's cleanup runs
    before [loadFilePreview] on every re-run. So when the props change (a
    new [token], say) while the file with the same id is loading or shown,
    the cleanup aborts the fetch in flight and revokes the shown object URL,
    and then the guard, which sees the same id with [loadingRef] or
    [previewUrlRef] still set, returns at once: no new fetch is issued and
    [loading], [previewUrl] and [error] are left as they were. No live fetch
    remains, so whatever fetch answers arrive afterwards (until the next
    props change or unmount), fetches, [loading], [previewUrl] and [error]
    stay unchanged: a loading preview spins for ever, and a shown preview
    keeps pointing at its revoked URL. *)
Theorem same_id_rerun_drops_fetch env es p f
    (Hm : mounted_props (run env es init) <> None)
    (Hun : unmounted (run env es init) = false)
    (Hf : file p = Some f) (Hopen : isOpen p = true)
    (Hid : currentFileId (run env es init) = Some (fid f))
    (Hbusy : loadingRef (run env es init) = true \/ previewUrlRef (run env es init) <> None) :
  let s := run env es init in
  let s' := step env s (Rerun p) in
  fetches s' = fetches s
  /\ loading s' = loading s /\ previewUrl s' = previewUrl s /\ error s' = error s
  /\ currentBlobUrl s' = None /\ abortController s' = None
  /\ (forall u, currentBlobUrl s = Some u -> In u (revoked s'))
  /\ (forall c, abortController s = Some c -> In c (aborted s'))
  /\ (forall l : list (nat * fetch_outcome),
        let s'' := run env (map (fun co => Settle (fst co) (snd co)) l) s' in
        fetches s'' = fetches s /\ loading s'' = loading s /\ previewUrl s'' = previewUrl s
        /\ error s'' = error s).
Proof.
  intros s s'. pose proof (inv_run env es init inv_init) as [HI _]. fold s in HI.
  assert (Hg : guard_hit f (cleanup s) = true).
  { unfold guard_hit, cleanup, revoke_current, abort_current.
    destruct (abortController s), (currentBlobUrl s); cbn; fold s in Hid, Hbusy; rewrite Hid, String.eqb_refl;
      destruct Hbusy as [-> | Hp]; try reflexivity;
      destruct (previewUrlRef s); try contradiction; apply orb_true_r. }
  assert (Es' : s' = set_mounted (cleanup s) (Some p) false).
  { unfold s', step. fold s in Hm, Hun. destruct (mounted_props s); [|congruence]. rewrite Hun.
    rewrite (guard_noop env p f _ Hf Hopen Hg). reflexivity. }
  assert (Hcl : fetches (cleanup s) = fetches s /\ loading (cleanup s) = loading s
                /\ previewUrl (cleanup s) = previewUrl s /\ error (cleanup s) = error s).
  { unfold cleanup, revoke_current, abort_current.
    destruct (abortController s), (currentBlobUrl s); cbn; repeat split. }
  destruct (inv_cleanup s HI) as (_ & Hcb & Hca).
  destruct Hcl as (C1 & C2 & C3 & C4).
  rewrite Es'. cbn [fetches loading previewUrl error currentBlobUrl abortController revoked aborted
                    set_mounted].
  split; [exact C1|]. split; [exact C2|]. split; [exact C3|]. split; [exact C4|].
  split; [exact Hcb|]. split; [exact Hca|]. split; [|split].
  - intros u Hu. rewrite (cleanup_revoked s u Hu). apply in_or_app. right. left. reflexivity.
  - intros c Hc. unfold cleanup, abort_current. rewrite Hc.
    unfold revoke_current. destruct (currentBlobUrl s); cbn; apply in_or_app; right; left; reflexivity.
  - intros l. destruct (settles_all_aborted env l (set_mounted (cleanup s) (Some p) false))
      as (F1 & F2 & F3 & F4).
    + intros c Hc. exact (cleanup_all_aborted s HI c Hc).
    + cbn [fetches loading previewUrl error set_mounted] in F1, F2, F3, F4.
      rewrite F1, F2, F3, F4. auto.
Qed.

Definition open_public_pdf : props :=
  {| file := Some pdf_file; isOpen := true; token := None; isPublic := true |}.

(** The failing input: a PDF opened with token [t1], the token changes to
    [t2] while its fetch is in flight, then that fetch answers: the preview
    is still loading, with one fetch issued. *)
Lemma same_id_rerun_drops_fetch_witness :
  let s' := step None (run None [Mount (open_with "t1")] init) (Rerun (open_with "t2")) in
  let s'' := run None (map (fun co => Settle (fst co) (snd co))
                         [(0%nat, FetchResponse true 200 "OK")]) s' in
  loading s'' = true /\ previewUrl s'' = None /\ error s'' = None /\ length (fetches s'') = 1%nat.
Proof.
  pose proof (same_id_rerun_drops_fetch None [Mount (open_with "t1")] (open_with "t2") pdf_file
                ltac:(vm_compute; discriminate) eq_refl eq_refl eq_refl eq_refl (or_introl eq_refl))
    as H.
  cbv zeta in H. destruct H as (_ & _ & _ & _ & _ & _ & _ & _ & Hl).
  destruct (Hl [(0%nat, FetchResponse true 200 "OK")]) as (F1 & F2 & F3 & F4).
  cbv zeta. rewrite F1, F2, F3, F4. vm_compute. repeat split.
Defined.





Definition shared_pdf : FileItem :=
  {| fid := "file-5"; mime_type := "application/pdf"; size_bytes := 10000000;
     share_link := Some {| share_token := "abc"; is_active := true |} |}.

(** C6 (counterexample). A file with an active share token opened without
    an auth token outside a public context is not fetched at all (the
    authentication check fails first); and in a public context a file
    without a share token is fetched from [/files/{id}/download] with no
    Authorization header. *)
Lemma endpoint_choice_counterexample :
  let s1 := run None [Mount {| file := Some shared_pdf; isOpen := true; token := None;
                               isPublic := false |}] init in
  let s2 := run None [Mount open_public_pdf] init in
  fetches s1 = [] /\ error s1 = Some "Authentication required for file preview"
  /\ fetches s2 = [("http://localhost:8080/api/v1/files/file-1/download", None)].
Proof. vm_compute. repeat split. Qed.

(** C6 (as the code does it). When the resolver gets to fetch (a token or a
    public context, a previewable file within its ceiling, not already
    current), it issues one fetch: a file with an active, non-empty share
    token goes to [/p/{token}] with no Authorization header; any other file
    to [/files/{id}/download], with "Bearer <token>" unless the modal is in
    a public context, where no header is sent. Without a token outside a
    public context, nothing is fetched, share token or not. *)
Theorem preview_endpoint_choice env p f s
    (Hf : file p = Some f) (Hready : fetch_ready p f = true) (Hg : guard_hit f s = false) :
  fetches (loadFilePreview env p s) = (fetches s ++ [(downloadUrl env f, authHeader p f)])%list
  /\ (hasPublicToken f = true ->
      exists sl, share_link f = Some sl
                 /\ downloadUrl env f = restBaseUrl env ++ "/p/" ++ share_token sl
                 /\ authHeader p f = None)
  /\ (hasPublicToken f = false ->
      downloadUrl env f = restBaseUrl env ++ "/files/" ++ fid f ++ "/download"
      /\ authHeader p f = (if isPublic p then None else Some ("Bearer " ++ Js.or_else (token p) "")))
  /\ (forall p', file p' = Some f -> Js.truthy (token p') = false -> isPublic p' = false ->
      fetches (loadFilePreview env p' s) = fetches s).
Proof.
  split; [|split; [|split]].
  - rewrite (load_ready env p f s Hf Hready Hg). cbn.
    unfold abort_current; destruct (abortController s); reflexivity.
  - intros Ht. unfold downloadUrl, authHeader. rewrite Ht, orb_true_r.
    unfold hasPublicToken in Ht. destruct (share_link f) as [sl|]; [|discriminate].
    exists sl. repeat split.
  - intros Ht. unfold downloadUrl, authHeader. rewrite Ht, orb_false_r.
    destruct (share_link f); split; reflexivity.
  - intros p' Hf' Ht Hp.
    destruct (load_fetches_shape env p' s) as [E|[E|(g & Hg' & Hr & _)]].
    + rewrite E. reflexivity.
    + exact E.
    + rewrite Hf' in Hg'. inversion Hg'; subst g. unfold fetch_ready in Hr.
      rewrite Ht, Hp in Hr. rewrite !andb_false_r, andb_false_l in Hr. simpl in Hr.
      repeat rewrite andb_false_r in Hr. discriminate.
Qed.

Lemma preview_endpoint_choice_witness :
  fetches (loadFilePreview None {| file := Some shared_pdf; isOpen := true; token := Some "t";
                                   isPublic := false |} init)
  = [("http://localhost:8080/api/v1/p/abc", None)].
Proof.
  apply (preview_endpoint_choice None
           {| file := Some shared_pdf; isOpen := true; token := Some "t"; isPublic := false |}
           shared_pdf init eq_refl eq_refl eq_refl).
Defined.

End PreviewProofs.

Module UploadRowsProofs.
Import Upload UploadProofs UploadRows.












End UploadRowsProofs.

Module UploadRequestProofs.
Import Upload UploadProofs.






















End UploadRequestProofs.

Module SimUploadProofs.
Import SimUpload.














End SimUploadProofs.

Module PreviewResetProofs.
Import Preview PreviewProofs PreviewView.

(** X8. Closing the modal (a re-run with [isOpen] false, or with no file)
    resets it: no preview, no error, not loading, the file id forgotten, no
    live object URL and no controller; the previous fetch is aborted, the
    previous object URL revoked, and no fetch is started. *)
Theorem close_resets_modal env s p
    (Hm : mounted_props s <> None) (Hu : unmounted s = false)
    (Hc : file p = None \/ isOpen p = false) :
  let s' := step env s (Rerun p) in
  previewUrl s' = None /\ previewUrlRef s' = None /\ error s' = None
  /\ loading s' = false /\ loadingRef s' = false /\ currentFileId s' = None
  /\ currentBlobUrl s' = None /\ abortController s' = None
  /\ fetches s' = fetches s
  /\ (forall c, abortController s = Some c -> In c (aborted s'))
  /\ (forall u, currentBlobUrl s = Some u -> In u (revoked s')).
Proof.
  cbv zeta. unfold step. destruct (mounted_props s) as [m|]; [|contradiction]. rewrite Hu.
  assert (L : loadFilePreview env p (cleanup s)
              = set_view (abort_current (revoke_current (cleanup s))) false false None None None None).
  { unfold loadFilePreview. destruct Hc as [Hc|Hc]; rewrite Hc; [reflexivity|].
    destruct (file p); reflexivity. }
  rewrite L. clear L Hm Hc.
  destruct s as [cb cfid ac lr pr ld pu er ab nc nu cr rv fe pe mp um]; cbn in *.
  destruct ac as [c|], cb as [u|]; cbn; repeat split; intros; try discriminate;
    repeat match goal with H : Some _ = Some _ |- _ => inversion H; subst; clear H end;
    apply in_or_app; right; left; reflexivity.
Qed.

(** A fetch race that failed. *)
Definition failed (o : fetch_outcome) : bool :=
  match o with FetchResponse ok _ _ => negb ok | FetchRejected _ => true end.

Lemma settle_live_failed c o s :
  In c (pending s) -> ~ In c (aborted s) -> failed o = true ->
  exists m, settle c o s = fail (drop_pending s c) m.
Proof.
  intros Hp Hna Ho. unfold settle.
  assert (Ep : existsb (Nat.eqb c) (pending s) = true) by (apply existsb_nat_In, Hp).
  assert (Ea : existsb (Nat.eqb c) (aborted s) = false).
  { destruct (existsb (Nat.eqb c) (aborted s)) eqn:E; [|reflexivity].
    apply existsb_nat_In in E. contradiction. }
  rewrite Ep. cbn [negb]. cbn [aborted drop_pending]. rewrite Ea.
  destruct o as [[|] st stt|m]; [discriminate Ho|eexists; reflexivity|eexists; reflexivity].
Qed.

Lemma cleanup_keeps s :
  fetches (cleanup s) = fetches s /\ loadingRef (cleanup s) = loadingRef s
  /\ previewUrlRef (cleanup s) = previewUrlRef s /\ currentFileId (cleanup s) = currentFileId s
  /\ mounted_props (cleanup s) = mounted_props s /\ unmounted (cleanup s) = unmounted s.
Proof.
  unfold cleanup, revoke_current, abort_current.
  destruct (abortController s), (currentBlobUrl s); cbn; repeat split.
Qed.

(** X9. In any reachable state of a mounted modal, a live fetch that fails
    (an HTTP error or a rejection) shows its error and ends the spinner, and
    clears [loadingRef] and [previewUrlRef]; so the next effect run for the
    same file id (after a token change, say), when the file is
    fetchable, passes the re-resolve guard and fetches it again, with the
    error cleared and the spinner back. *)
Theorem failed_preview_refetched env es c o p f
    (Hm : mounted_props (run env es init) <> None)
    (Hun : unmounted (run env es init) = false)
    (Hp : In c (pending (run env es init))) (Hna : ~ In c (aborted (run env es init)))
    (Ho : failed o = true)
    (Hf : file p = Some f) (Hid : currentFileId (run env es init) = Some (fid f))
    (Hr : fetch_ready p f = true) :
  let s := run env es init in
  let s1 := step env s (Settle c o) in
  let s2 := step env s1 (Rerun p) in
  error s1 <> None /\ loading s1 = false /\ previewUrl s1 = None
  /\ fetches s2 = (fetches s ++ [(downloadUrl env f, authHeader p f)])%list
  /\ loading s2 = true /\ error s2 = None /\ currentFileId s2 = Some (fid f).
Proof.
  intros s s1 s2. fold s in Hm, Hun, Hp, Hna, Hid.
  destruct (settle_live_failed c o s Hp Hna Ho) as [m Hs1].
  assert (E1 : s1 = fail (drop_pending s c) m) by exact Hs1.
  set (t := fail (drop_pending s c) m) in E1.
  destruct (cleanup_keeps t) as (K1 & K2 & K3 & K4 & K5 & K6).
  assert (Hg : guard_hit f (cleanup t) = false).
  { unfold guard_hit. rewrite K2, K3, K4. cbn. rewrite Hid, String.eqb_refl. reflexivity. }
  assert (E2 : s2 = set_mounted (loadFilePreview env p (cleanup t)) (Some p) false).
  { unfold s2. rewrite E1. unfold step at 1.
    change (mounted_props t) with (mounted_props s). change (unmounted t) with (unmounted s).
    destruct (mounted_props s); [|congruence]. rewrite Hun. reflexivity. }
  rewrite E2, E1. rewrite (load_ready env p f _ Hf Hr Hg).
  unfold abort_current. destruct (abortController (cleanup t)); cbn;
    rewrite ?K1; repeat split; discriminate.
Qed.

Lemma video_kind f : isVideoFile f = false -> isVideo f = false.
Proof.
  unfold isVideoFile, isVideo. intros H. apply orb_false_iff in H as [H1 _].
  rewrite H1. simpl. match goal with |- ?b = false => destruct b eqn:E; [|reflexivity] end.
  repeat (apply orb_true_iff in E as [E|E];
          [apply String.eqb_eq in E; rewrite E in H1; discriminate|]).
  discriminate.
Qed.

(** X11. Opening a file that [loadFilePreview] does not recognise as
    previewable issues no fetch (none is started or awaited) and shows the
    panel "Preview not available", except for the types the rendering code
    counts as text ([application/xml], [application/x-yaml]): those show
    "Preview failed to load" with the line "Text file could not be loaded.",
    although no load was attempted. *)
Theorem unrecognised_file_panel env p f s
    (Hf : file p = Some f) (Ho : isOpen p = true) (Hg : guard_hit f s = false)
    (Hk : (isImageFile f || isTextFile f || isPDFFile f || isVideoFile f) = false) :
  renderPreview f (loadFilePreview env p s)
  = (if isText_render f then FailedToLoad false true false else NotAvailable)
  /\ fetches (loadFilePreview env p s) = fetches s
  /\ pending (loadFilePreview env p s) = pending s.
Proof.
  unfold loadFilePreview. rewrite Hf, Ho. simpl. rewrite Hg, Hk.
  apply orb_false_iff in Hk as [Hk Hv]. apply orb_false_iff in Hk as [Hk Hp].
  apply orb_false_iff in Hk as [Hi Ht].
  split; [|unfold abort_current; destruct (abortController s); split; reflexivity].
  unfold renderPreview. cbn.
  assert (Hp' : isPDF f = false) by exact Hp.
  rewrite Hp', (video_kind f Hv). destruct (isText_render f); reflexivity.
Qed.

(** X12. The Preview button of a file row in [FolderTree] shows exactly for
    the files [PreviewModal] fetches a preview of, except
    [application/javascript], which gets no button. *)
Theorem folder_tree_preview_button f :
  canPreview (mime_type f)
  = (isImageFile f || isTextFile f || isPDFFile f || isVideoFile f)
    && negb (String.eqb (mime_type f) "application/javascript").
Proof.
  unfold canPreview, isImageFile, isTextFile, isPDFFile, isVideoFile.
  destruct f as [i m sz sl]; cbn [mime_type].
  destruct (String.eqb_spec m "application/javascript") as [->|Hjs]; [reflexivity|].
  destruct (String.eqb_spec m "text/csv") as [->|Hcsv]; [reflexivity|].
  destruct (String.eqb_spec m "video/mp4") as [->|Hmp4]; [reflexivity|].
  destruct (Js.starts_with "image/" m), (Js.starts_with "video/" m), (Js.starts_with "text/" m),
    (String.eqb m "application/pdf"), (String.eqb m "application/json"); reflexivity.
Qed.

Definition photo : FileItem :=
  {| fid := "file-6"; mime_type := "image/jpeg"; size_bytes := 4096; share_link := None |}.
Definition photo_open (t : string) (o : bool) : props :=
  {| file := Some photo; isOpen := o; token := Some t; isPublic := false |}.
Definition config_xml : FileItem :=
  {| fid := "file-7"; mime_type := "application/xml"; size_bytes := 512; share_link := None |}.

Lemma close_resets_modal_witness :
  previewUrl (step None (run None [Mount (photo_open "t" true); Settle 0 (FetchResponse true 200 "OK")] init)
                (Rerun (photo_open "t" false))) = None
  /\ revoked (step None (run None [Mount (photo_open "t" true); Settle 0 (FetchResponse true 200 "OK")] init)
                (Rerun (photo_open "t" false))) = [0].
Proof.
  destruct (close_resets_modal None
              (run None [Mount (photo_open "t" true); Settle 0 (FetchResponse true 200 "OK")] init)
              (photo_open "t" false) ltac:(vm_compute; discriminate) eq_refl (or_intror eq_refl))
    as (Hp & _ & _ & _ & _ & _ & _ & _ & _ & _ & Hr).
  split; [exact Hp|].
  vm_compute. reflexivity.
Defined.

Lemma failed_preview_refetched_witness :
  let s := run None [Mount (photo_open "t1" true)] init in
  let s1 := step None s (Settle 0 (FetchResponse false 500 "Server Error")) in
  let s2 := step None s1 (Rerun (photo_open "t2" true)) in
  error s1 <> None /\ loading s1 = false /\ previewUrl s1 = None
  /\ fetches s2 = (fetches s ++ [(downloadUrl None photo, authHeader (photo_open "t2" true) photo)])%list
  /\ loading s2 = true /\ error s2 = None /\ currentFileId s2 = Some (fid photo).
Proof.
  exact (failed_preview_refetched None [Mount (photo_open "t1" true)] 0
           (FetchResponse false 500 "Server Error") (photo_open "t2" true) photo
           ltac:(vm_compute; discriminate) eq_refl ltac:(vm_compute; left; reflexivity)
           ltac:(vm_compute; intros []) eq_refl eq_refl eq_refl eq_refl).
Defined.

Lemma unrecognised_file_panel_witness :
  renderPreview config_xml
    (loadFilePreview None {| file := Some config_xml; isOpen := true; token := Some "t"; isPublic := false |} init)
  = FailedToLoad false true false
  /\ fetches (loadFilePreview None {| file := Some config_xml; isOpen := true; token := Some "t";
                                     isPublic := false |} init) = [].
Proof.
  destruct (unrecognised_file_panel None
              {| file := Some config_xml; isOpen := true; token := Some "t"; isPublic := false |}
              config_xml init eq_refl eq_refl eq_refl eq_refl) as (H1 & H2 & _).
  split; [exact H1|rewrite H2; reflexivity].
Defined.

End PreviewResetProofs.

Module PDFPreviewProofs.
Import PDFPreview.

Lemma pdf_run_cons e es s : pdf_run (e :: es) s = pdf_run es (pdf_step s e).
Proof. reflexivity. Qed.

Lemma pdf_run_iframe es s :
  iframeError s = false -> retryWithObject s = false ->
  iframeError (pdf_run es s) = false /\ retryWithObject (pdf_run es s) = false
  /\ loading (pdf_run es s) = (if existsb (fun e => match e with IframeLoad => true | _ => false end) es
                              then false else loading s).
Proof.
  revert s; induction es as [|e es IH]; intros s H1 H2; [repeat split; assumption|].
  rewrite pdf_run_cons. destruct e; unfold pdf_step; cbn [react_dispatches negb existsb];
    rewrite ?H1, ?H2; cbn [negb].
  - destruct (IH (handleIframeLoad s) H1 H2) as (E1 & E2 & E3). repeat split; auto.
    rewrite E3. destruct (existsb _ es); reflexivity.
  - apply IH; assumption.
  - apply IH; assumption.
  - apply IH; assumption.
Qed.

(** X13. [PDFPreview] never shows its "PDF Preview Not Available" panel and
    never swaps the iframe for the [<object>] fallback, whatever load and
    error events its elements fire: React attaches no [error] listener to
    [<iframe>] or [<object>], so [handleIframeError] and
    [handleObjectError] are never called. Its spinner ends with the
    iframe's first [load] event and stays on until then. *)
Theorem pdf_fallback_panel (es : list pdf_event) :
  iframeError (pdf_run es pdf_init) = false
  /\ retryWithObject (pdf_run es pdf_init) = false
  /\ loading (pdf_run es pdf_init) = negb (existsb (fun e => match e with IframeLoad => true | _ => false end) es).
Proof.
  destruct (pdf_run_iframe es pdf_init eq_refl eq_refl) as (E1 & E2 & E3).
  split; [exact E1|]. split; [exact E2|]. rewrite E3.
  destruct (existsb _ es); reflexivity.
Qed.

End PDFPreviewProofs.

Module ToastProofs.
Import Toasts.

Lemma filter_length_lt {A} (f : A -> bool) l x :
  In x l -> f x = false -> (length (filter f l) < length l)%nat.
Proof.
  induction l as [|y l IH]; intros Hin Hf; [destruct Hin|].
  simpl. destruct Hin as [<-|Hin].
  - rewrite Hf. pose proof (filter_length_le f l). simpl. lia.
  - destruct (f y); simpl; [specialize (IH Hin Hf); lia|].
    pose proof (filter_length_le f l). lia.
Qed.

(** X15. Removing by its id the toast just added: the new toast always
    goes, and the other toasts are those [removeToast] keeps of the earlier
    list. When the generated id is fresh, the earlier list comes back
    exactly, same toasts in the same order; when it collides with an older
    toast's id, that older toast is removed as well, and the list ends
    shorter than before. *)
Theorem remove_added_toast id type msg prev :
  removeToast id (addToast id type msg prev) = removeToast id prev
  /\ (~ In id (map toast_id prev) -> removeToast id (addToast id type msg prev) = prev)
  /\ (forall t, In t prev -> toast_id t = id ->
        ~ In t (removeToast id (addToast id type msg prev))
        /\ (length (removeToast id (addToast id type msg prev)) < length prev)%nat).
Proof.
  assert (E : removeToast id (addToast id type msg prev) = removeToast id prev).
  { unfold removeToast, addToast. rewrite filter_app. simpl. rewrite String.eqb_refl.
    apply app_nil_r. }
  split; [exact E|split].
  - intros Hn. rewrite E. clear E. unfold removeToast. induction prev as [|t prev IH]; simpl; [reflexivity|].
    simpl in Hn. destruct (String.eqb_spec (toast_id t) id) as [Et|Et];
      [exfalso; apply Hn; left; exact Et|].
    simpl. f_equal. apply IH. intros Hi. apply Hn. right. exact Hi.
  - intros t Hin Ht. rewrite E. split.
    + unfold removeToast. rewrite filter_In, Ht, String.eqb_refl. intros [_ H]. discriminate.
    + apply filter_length_lt with t; [exact Hin|]. rewrite Ht, String.eqb_refl. reflexivity.
Qed.

End ToastProofs.

Module FileIconProofs.
Import FileIcons.

Lemma list_str_app (a c : string) :
  list_ascii_of_string (a ++ c) = (list_ascii_of_string a ++ list_ascii_of_string c)%list.
Proof. induction a as [|x a IH]; simpl; [reflexivity|now rewrite IH]. Qed.

Lemma list_rev_str_acc (s acc : string) :
  list_ascii_of_string (Js.rev_str s acc)
  = (rev (list_ascii_of_string s) ++ list_ascii_of_string acc)%list.
Proof.
  revert acc; induction s as [|x s IH]; intros acc; simpl; [reflexivity|].
  rewrite IH. simpl. rewrite <- app_assoc. reflexivity.
Qed.

Lemma list_str_inj (s t : string) : list_ascii_of_string s = list_ascii_of_string t -> s = t.
Proof.
  intros E. rewrite <- (string_of_list_ascii_of_string s), <- (string_of_list_ascii_of_string t).
  now rewrite E.
Qed.

Lemma rev_str_app (a c acc : string) : Js.rev_str (a ++ c) acc = Js.rev_str c (Js.rev_str a acc).
Proof. revert acc; induction a as [|x a IH]; intros acc; simpl; [reflexivity|apply IH]. Qed.

Lemma upto_dot_app (s t : string) :
  ~ In "."%char (list_ascii_of_string s) -> upto_dot (s ++ t) = s ++ upto_dot t.
Proof.
  induction s as [|x s IH]; intros H; simpl; [reflexivity|].
  simpl in H. destruct (Ascii.eqb_spec x "."%char) as [E|E]; [exfalso; apply H; left; now symmetry|].
  rewrite IH; [reflexivity|]. intros Hi. apply H. right. exact Hi.
Qed.

Lemma rev_no_dot (n : string) :
  ~ In "."%char (list_ascii_of_string n) -> ~ In "."%char (list_ascii_of_string (Js.rev_str n "")).
Proof.
  intros H Hi. rewrite list_rev_str_acc, app_nil_r in Hi. apply H, in_rev, Hi.
Qed.

Lemma rev_rev (n : string) : Js.rev_str (Js.rev_str n "") "" = n.
Proof.
  apply list_str_inj. rewrite !list_rev_str_acc. simpl. rewrite !app_nil_r. apply rev_involutive.
Qed.

Lemma str_app_nil (s : string) : (s ++ "")%string = s.
Proof. apply list_str_inj. rewrite list_str_app. apply app_nil_r. Qed.

Lemma last_piece_no_dot (n : string) :
  ~ In "."%char (list_ascii_of_string n) -> last_piece n = n.
Proof.
  intros H. unfold last_piece.
  rewrite <- (str_app_nil (Js.rev_str n "")) at 1.
  rewrite upto_dot_app by (apply rev_no_dot, H). simpl. rewrite str_app_nil. apply rev_rev.
Qed.

Lemma last_piece_after_dot (b n : string) :
  ~ In "."%char (list_ascii_of_string n) -> last_piece (b ++ "." ++ n) = n.
Proof.
  intros H. unfold last_piece. rewrite rev_str_app. simpl.
  assert (E : forall acc, Js.rev_str n acc = (Js.rev_str n "" ++ acc)%string).
  { intros acc. apply list_str_inj. rewrite list_str_app, !list_rev_str_acc. simpl.
    rewrite app_nil_r. reflexivity. }
  rewrite E, upto_dot_app by (apply rev_no_dot, H). simpl. rewrite str_app_nil. apply rev_rev.
Qed.

(** X16. The extension [getFileIcon] and [getIconColorClass] read is the
    lower-cased text after the last ['.'] of the file name, and a name
    without any ['.'] counts as its own extension: prefixing a dot-free
    name [n] with any [b ++ "."] changes neither the icon nor its colour. *)
Theorem extension_after_last_dot (m b n : string)
  (Hn : ~ In "."%char (list_ascii_of_string n)) :
  ext_of (b ++ "." ++ n) = to_lower n
  /\ ext_of n = to_lower n
  /\ getFileIcon m (b ++ "." ++ n) = getFileIcon m n
  /\ getIconColorClass m (b ++ "." ++ n) = getIconColorClass m n.
Proof.
  assert (E1 : ext_of (b ++ "." ++ n) = to_lower n).
  { unfold ext_of. now rewrite last_piece_after_dot. }
  assert (E2 : ext_of n = to_lower n).
  { unfold ext_of. now rewrite last_piece_no_dot. }
  split; [exact E1|]. split; [exact E2|].
  unfold getFileIcon, getIconColorClass. rewrite E1, E2. split; reflexivity.
Qed.

Ltac colour_branch :=
  match goal with
  | |- (if ?c then _ else _) = _ -> _ => let Ec := fresh "Ec" in destruct c eqn:Ec
  end.

Ltac code_hit H :=
  first [ discriminate H
        | lazymatch type of H with (_ || _) = true => idtac end;
          apply orb_true_iff in H as [H|H]; code_hit H
        | rewrite H; repeat (rewrite orb_true_r || rewrite orb_true_l); cbn [orb]; try reflexivity;
          match goal with |- (if ?c then _ else _) = _ => destruct c end; reflexivity ].

Ltac code_branch :=
  match goal with H : context [includes "javascript" _] |- _ => code_hit H end.

Ltac icon_cases :=
  repeat colour_branch; intros E; first [discriminate E | reflexivity | code_branch].

(** X17. The colour class and the icon come from the same branches: each
    class [getIconColorClass] returns down to the emerald one of code files
    goes with one icon of [getFileIcon] for the same file. Further down the
    two functions test different things: a Python file served as
    [text/x-python] gets the code icon but the slate colour of text files,
    as the colour function does not list ["py"]; an SQL dump served as
    [application/sql+xml] gets the indigo colour of databases but the code
    icon, as the icon function tests for ["xml"] first. *)
Theorem icon_colour_agree (m n : string) :
  (getIconColorClass m n = "text-pink-500 bg-pink-100 dark:bg-pink-900/30" -> getFileIcon m n = Image)
  /\ (getIconColorClass m n = "text-purple-500 bg-purple-100 dark:bg-purple-900/30" -> getFileIcon m n = Film)
  /\ (getIconColorClass m n = "text-orange-500 bg-orange-100 dark:bg-orange-900/30" -> getFileIcon m n = Music)
  /\ (getIconColorClass m n = "text-red-500 bg-red-100 dark:bg-red-900/30" -> getFileIcon m n = FileText)
  /\ (getIconColorClass m n = "text-green-500 bg-green-100 dark:bg-green-900/30" -> getFileIcon m n = FileSpreadsheet)
  /\ (getIconColorClass m n = "text-amber-500 bg-amber-100 dark:bg-amber-900/30" -> getFileIcon m n = Presentation)
  /\ (getIconColorClass m n = "text-blue-500 bg-blue-100 dark:bg-blue-900/30" -> getFileIcon m n = FileText)
  /\ (getIconColorClass m n = "text-yellow-600 bg-yellow-100 dark:bg-yellow-900/30" -> getFileIcon m n = FileArchive)
  /\ (getIconColorClass m n = "text-teal-500 bg-teal-100 dark:bg-teal-900/30" -> getFileIcon m n = FileJson)
  /\ (getIconColorClass m n = "text-emerald-500 bg-emerald-100 dark:bg-emerald-900/30" -> getFileIcon m n = FileCode)
  /\ getFileIcon "text/x-python" "main.py" = FileCode
  /\ getIconColorClass "text/x-python" "main.py" = "text-slate-500 bg-slate-100 dark:bg-slate-900/30"
  /\ getFileIcon "application/sql+xml" "dump.sql" = FileCode
  /\ getIconColorClass "application/sql+xml" "dump.sql" = "text-indigo-500 bg-indigo-100 dark:bg-indigo-900/30".
Proof.
  repeat apply conj; [..| vm_compute; reflexivity | vm_compute; reflexivity
                        | vm_compute; reflexivity | vm_compute; reflexivity].
  all: unfold getFileIcon, getIconColorClass, one_of; cbv zeta; cbn [existsb];
    generalize (ext_of n); intros e; icon_cases.
Qed.

Lemma extension_after_last_dot_witness :
  getFileIcon "application/octet-stream" "backup.2024.TAR" = FileArchive
  /\ getFileIcon "application/octet-stream" "TAR" = FileArchive.
Proof.
  destruct (extension_after_last_dot "application/octet-stream" "backup.2024" "TAR"
              ltac:(simpl; intuition discriminate)) as (_ & _ & Hi & _).
  split; [vm_compute; reflexivity|].
  rewrite <- Hi. vm_compute. reflexivity.
Defined.

End FileIconProofs.
